(** * kite: the dnode scrubber and the client session, embedded in Rocq

    The file follows the Go sources:
    - [Strconv]: the two functions of package strconv the code calls;
    - [Dnode]:   package dnode, file scrub.go (the callback scrubber);
    - [Kite]:    package kite, files client.go (session, request/response
                 layer) and the request part (runMethod, authenticate).

    Go values reached through [interface{}] are described by the inductive
    type [value], which keeps what the [reflect] package lets the scrubber
    see.  A panic is an outcome of its own, next to a normal return, and it
    keeps the state: Go mutates the scrubber in place, so whatever was
    registered before a panic stays registered. *)

From Stdlib Require Import DecimalString DecimalN.
From stdpp Require Import gmap strings list fin_maps sorting.

Open Scope string_scope.
Open Scope list_scope.

(* ===================================================================== *)
(** ** Package strconv *)
(* ===================================================================== *)

Module Strconv.

(** 2^64, the number of values of a Go uint64. *)
Definition two64 : N := 18446744073709551616%N.
Definition MaxUint64 : N := 18446744073709551615%N.

(** [strconv.FormatUint(n, 10)]. *)
Definition FormatUint (n : N) : string :=
  NilEmpty.string_of_uint (N.to_uint n).

(** [strconv.ParseUint(s, 10, 64)]: the value and whether [err == nil].
    The empty string and a string with a byte that is no digit give
    [(0, ErrSyntax)]; a number that does not fit 64 bits gives
    [(MaxUint64, ErrRange)]. *)
Definition ParseUint (s : string) : N * bool :=
  match s with
  | EmptyString => (0%N, false)
  | _ =>
    match NilEmpty.uint_of_string s with
    | Some d =>
      let n := N.of_uint d in
      if (n <? two64)%N then (n, true) else (MaxUint64, false)
    | None => (0%N, false)
    end
  end.

End Strconv.

(* ===================================================================== *)
(** ** Package dnode: scrub.go *)
(* ===================================================================== *)

Module Dnode.
Import Strconv.

(** *** Go values as the scrubber sees them *)

(** A Go closure.  Closures are compared by identity only, so a closure
    is a name.  A stored closure is never the nil func: what reaches the
    registry comes out of [Callback], or is a method value. *)
Inductive callable : Type :=
| UserFunc (n : nat)              (* a function of the host program *)
| ResponseFunc (method : string). (* the closure of makeResponseCallback *)

#[export] Instance callable_eq_dec : EqDecision callable.
Proof. solve_decision. Defined.

(** The static type of a func value, as far as the type assertions of
    registerCallback can tell. *)
Inductive functype : Type :=
| FuncPartial    (* func(p *Partial) *)
| FuncCallback   (* the named type dnode.callback, which has Call *)
| FuncOther.     (* any other func type *)

(** The static type of a struct field, as far as isFunction looks. *)
Inductive fieldtype : Type :=
| TInterface (implements_caller : bool)  (* an interface type *)
| TOther.

(** reflect.StructField together with the field's value. *)
Record StructField (V : Type) : Type := mkField {
  Name : string;
  PkgPath : string;        (* empty for an exported field *)
  TagDnode : string;       (* f.Tag.Get("dnode") *)
  TagJson : string;        (* f.Tag.Get("json") *)
  Anonymous : bool;
  FType : fieldtype;
  FValue : V;              (* v.Field(i).Interface() *)
}.
Arguments mkField {V}.
Arguments Name {V}. Arguments PkgPath {V}. Arguments TagDnode {V}.
Arguments TagJson {V}. Arguments Anonymous {V}. Arguments FType {V}.
Arguments FValue {V}.

(** reflect.Method together with the method value [v.Method(i)]. *)
Record Method : Type := mkMethod {
  MName : string;
  MPkgPath : string;       (* empty for an exported method *)
  MType : functype;        (* type of the method value *)
  MFunc : callable;
}.

(** What an [interface{}] can hold.  A Go map is given with the order in
    which [range] happens to visit it, so a statement for every list is a
    statement for every iteration order. *)
#[local] Unset Elimination Schemes.
Inductive value : Type :=
| VNil                                          (* the nil interface *)
| VBool (b : bool)
| VNum (n : Z)
| VStr (s : string)
| VOther                                        (* any kind not listed *)
| VSlice (obj : list value)                     (* []interface{} *)
| VMap (obj : list (string * value))            (* map[string]interface{} *)
| VPtrSlice (obj : option (list value))         (* *[]interface{} *)
| VPtrMap (obj : option (list (string * value)))(* *map[string]interface{} *)
| VFunc (t : functype) (f : callable)           (* Kind() == reflect.Func *)
| VPtr (methods : list Method) (elem : option value)
    (* any other pointer, with the method set of the pointer type;
       [None] is the nil pointer *)
| VStruct (fields : list (StructField value)) (methods : list Method).
#[local] Set Elimination Schemes.

(** Path is []interface{} holding ints (slice indices) and strings. *)
Inductive PathElem : Type :=
| PInt (i : Z)
| PStr (s : string).

#[export] Instance PathElem_eq_dec : EqDecision PathElem.
Proof. solve_decision. Defined.

Abbreviation Path := (list PathElem).

(** *** The scrubber *)

Record Scrubber : Type := mkScrubber {
  callbacks : gmap N callable;   (* map[uint64]func(p *Partial) *)
  seq : N;                       (* uint64 *)
}.

(** Modelled from the spec: the constructor of the scrubber (file
    scrubber.go is missing); "allocate the next ID (starting at 0)". *)
Definition NewScrubber : Scrubber := mkScrubber ∅ 0%N.

(** Modelled from the spec: "GetCallback(id) -> callable or none:
    registry lookup" (file scrubber.go is missing). *)
Definition GetCallback (s : Scrubber) (id : N) : option callable :=
  callbacks s !! id.

(** Modelled from the spec: "RemoveCallback(id): drops the registration;
    safe on absent IDs" (file scrubber.go is missing). *)
Definition RemoveCallback (s : Scrubber) (id : N) : Scrubber :=
  mkScrubber (delete id (callbacks s)) (seq s).

(** A panic value. *)
Inductive panic : Type :=
| PanicString (msg : string)   (* panic("...") written in the source *)
| PanicReflectNumField         (* reflect: NumField of a non-struct Value *)
| PanicTypeAssertion.          (* x.(T) without ok, on another type *)

(** The state a walk threads: the scrubber, the callbackMap that is
    being filled, and (ghost, not in the Go code) the IDs that the walk
    allocated, oldest first. *)
Record walk : Type := mkWalk {
  scr : Scrubber;
  cbmap : gmap string Path;
  allocated : list N;
}.

Inductive outcome : Type :=
| Done (w : walk)
| Panicked (p : panic) (w : walk).

Definition bind (o : outcome) (k : walk -> outcome) : outcome :=
  match o with
  | Done w => k w
  | Panicked p w => Panicked p w
  end.

Notation "o >>> k" := (bind o k) (at level 61, left associativity).

Definition final (o : outcome) : walk :=
  match o with Done w => w | Panicked _ w => w end.

Definition returns (o : outcome) : bool :=
  match o with Done _ => true | Panicked _ _ => false end.

(** reflect's [v.FieldByName(name)] on a struct: a field of the struct
    itself, else a field promoted from a struct embedded by value, in
    declaration order. *)
Fixpoint FieldByName (name : string) (v : value)
  : option (StructField value) :=
  match v with
  | VStruct fs _ =>
    match find (fun f => String.eqb (Name f) name) fs with
    | Some f => Some f
    | None =>
      (fix promoted (l : list (StructField value)) :=
         match l with
         | [] => None
         | f :: r =>
           if Anonymous f then
             match FieldByName name (FValue f) with
             | Some g => Some g
             | None => promoted r
             end
           else promoted r
         end) fs
    end
  | _ => None
  end.

Definition isFunction (v : value) : bool :=
  match v with
  | VStruct _ _ =>
    match FieldByName "Caller" v with
    | None => false                        (* !callerField.IsValid() *)
    | Some callerField =>
      match FType callerField with
      | TInterface implements => implements
      | TOther => false                    (* Kind() != reflect.Interface *)
      end
    end
  | _ => false                             (* v.Kind() != reflect.Struct *)
  end.

(** uint64 arithmetic of [atomic.AddUint64(&s.seq, 1) - 1]. *)
Definition add1 (n : N) : N := ((n + 1) mod two64)%N.
Definition sub1 (n : N) : N := ((n + two64 - 1) mod two64)%N.

(** The two panics written in scrub.go. *)
Definition root_panic : panic :=
  PanicString "root element must be a struct or slice".
Definition func_panic : panic :=
  PanicString "cannot marshal func, use Callback() to wrap it".

(** The tail of registerCallback, once [cb] is known. *)
Definition store (cb : callable) (path : Path) (w : walk) : walk :=
  let seq' := add1 (seq (scr w)) in
  let next := sub1 seq' in
  let seqstr := FormatUint next in
  mkWalk (mkScrubber (<[next := cb]> (callbacks (scr w))) seq')
         (<[seqstr := path]> (cbmap w))
         (allocated w ++ [next]).

Definition registerCallback (val : value) (path : Path) (w : walk)
  : outcome :=
  match path with
  | [] => Panicked (PanicString "root element must be a struct or slice") w
  | _ =>
    if isFunction val then
      match FieldByName "Caller" val with
      | Some callerField =>
        match FValue callerField with
        | VNil => Done w                            (* callerValue == nil *)
        | VFunc FuncCallback cb => Done (store cb path w)
        | _ => Panicked PanicTypeAssertion w        (* .(callback) *)
        end
      | None => Done w                              (* not reached *)
      end
    else
      match val with
      | VFunc FuncPartial cb => Done (store cb path w)
      | _ => Done w
      end
  end.

(** [strings.ToLower(name[0:1]) + name[1:]], on ASCII names. *)
Definition lowerFirst (name : string) : string :=
  match name with
  | EmptyString => EmptyString
  | String c rest =>
    let n := Ascii.nat_of_ascii c in
    String (if (65 <=? n)%nat && (n <=? 90)%nat
            then Ascii.ascii_of_nat (n + 32) else c) rest
  end.

Fixpoint collectMethods (ms : list Method) (path : Path) (w : walk)
  : outcome :=
  match ms with
  | [] => Done w
  | m :: rest =>
    (if String.eqb (MPkgPath m) "" then
       registerCallback (VFunc (MType m) (MFunc m))
                        (path ++ [PStr (lowerFirst (MName m))]) w
     else Done w)
    >>> collectMethods rest path
  end.

(** The loops of collectCallbacks and collectFields, over the function
    [rec] they call on each element. *)
Section Loops.
Variable rec : value -> Path -> walk -> outcome.

Fixpoint rangeSlice (obj : list value) (i : Z) (path : Path) (w : walk)
  : outcome :=
  match obj with
  | [] => Done w
  | item :: rest =>
    rec item (path ++ [PInt i]) w >>> rangeSlice rest (i + 1) path
  end.

Fixpoint rangeMap (obj : list (string * value)) (path : Path) (w : walk)
  : outcome :=
  match obj with
  | [] => Done w
  | (key, item) :: rest =>
    rec item (path ++ [PStr key]) w >>> rangeMap rest path
  end.

Definition fieldStep (f : StructField value) (path : Path) (w : walk)
  : outcome :=
  if negb (String.eqb (PkgPath f) "") then Done w      (* unexported *)
  else if String.eqb (TagDnode f) "-" then Done w
  else
    let tag := TagJson f in
    if String.eqb tag "-" then Done w
    else
      let name := if negb (String.eqb tag "") then tag else Name f in
      if Anonymous f then rec (FValue f) path w
      else rec (FValue f) (path ++ [PStr name]) w.

Fixpoint rangeFields (fs : list (StructField value)) (path : Path)
  (w : walk) : outcome :=
  match fs with
  | [] => Done w
  | f :: rest => fieldStep f path w >>> rangeFields rest path
  end.
End Loops.

Fixpoint collectCallbacks (rawObj : value) (path : Path) (w : walk)
  {struct rawObj} : outcome :=
  match rawObj with
  | VNil => Done w
  | VSlice obj => rangeSlice collectCallbacks obj 0 path w
  | VMap obj => rangeMap collectCallbacks obj path w
  | VPtrSlice None => Done w
  | VPtrSlice (Some obj) => rangeSlice collectCallbacks obj 0 path w
  | VPtrMap None => Done w
  | VPtrMap (Some obj) => rangeMap collectCallbacks obj path w
  | VFunc _ _ =>
    Panicked (PanicString "cannot marshal func, use Callback() to wrap it") w
  | VPtr ms None => Done w
  | VPtr ms (Some v2) =>
    if isFunction v2 then registerCallback v2 path w
    else
      match v2 with
      | VStruct fs _ =>
        rangeFields collectCallbacks fs path w >>> collectMethods ms path
      | _ => Panicked PanicReflectNumField w
      end
  | VStruct fs ms =>
    if isFunction rawObj then registerCallback rawObj path w
    else rangeFields collectCallbacks fs path w >>> collectMethods ms path
  | _ => Done w
  end.

Definition collectFields (v : value) (path : Path) (w : walk) : outcome :=
  match v with
  | VStruct fs _ => rangeFields collectCallbacks fs path w
  | _ => Panicked PanicReflectNumField w
  end.

(** [Scrub]: a fresh callbackMap, an empty path. *)
Definition Scrub (s : Scrubber) (obj : value) : outcome :=
  collectCallbacks obj [] (mkWalk s ∅ []).

(** *** Vocabulary of the statements about the scrubber *)

(** A value made of nil, numbers, strings, booleans, []interface{} and
    map[string]interface{} only. *)
Fixpoint pure_json (v : value) : bool :=
  match v with
  | VNil | VBool _ | VNum _ | VStr _ => true
  | VSlice obj => forallb pure_json obj
  | VMap obj => forallb (fun kv => pure_json (snd kv)) obj
  | _ => false
  end.

(** Whether collectFields hands the field's value to collectCallbacks. *)
Definition walked (f : StructField value) : bool :=
  String.eqb (PkgPath f) "" && negb (String.eqb (TagDnode f) "-")
  && negb (String.eqb (TagJson f) "-").

(** Whether a raw func lies on the way of the walk: in a slice or map of
    interfaces, behind a pointer, or in a walked field of a struct that
    is no Function envelope. *)
Fixpoint reaches_raw_func (v : value) : bool :=
  match v with
  | VFunc _ _ => true
  | VSlice obj | VPtrSlice (Some obj) => existsb reaches_raw_func obj
  | VMap obj | VPtrMap (Some obj) =>
    existsb (fun kv => reaches_raw_func (snd kv)) obj
  | VPtr _ (Some (VStruct fs ms)) =>
    negb (isFunction (VStruct fs ms))
    && existsb (fun f => walked f && reaches_raw_func (FValue f)) fs
  | VStruct fs ms =>
    negb (isFunction v)
    && existsb (fun f => walked f && reaches_raw_func (FValue f)) fs
  | _ => false
  end.

(** Modelled from the spec: the canonical Function envelope (file
    function.go is missing): a struct whose field Caller has the interface
    type caller.  isFunction answers before the methods are read. *)
Definition Function (caller : value) : value :=
  VStruct [mkField "Caller" "" "" "" false (TInterface true) caller] [].

(** Modelled from the spec: [Callback(f)], the envelope around the func
    [f] converted to the type callback (file function.go is missing). *)
Definition Callback (f : callable) : value := Function (VFunc FuncCallback f).

(** A value with the shape of a Function envelope whose Caller is nil. *)
Definition nil_envelope (val : value) : bool :=
  isFunction val &&
  match FieldByName "Caller" val with
  | Some callerField =>
    match FValue callerField with VNil => true | _ => false end
  | None => false
  end.

(** A bare func of type func(p *Partial). *)
Definition bare_func_partial (val : value) : bool :=
  match val with VFunc FuncPartial _ => true | _ => false end.

(** The calls of Scrub made on one scrubber, in order: the scrubber at
    the end and the IDs allocated, oldest first.  A call that panics
    leaves its registrations behind, like the Go code. *)
Fixpoint ScrubSession (s : Scrubber) (calls : list value) : Scrubber * list N :=
  match calls with
  | [] => (s, [])
  | obj :: rest =>
    let w := final (Scrub s obj) in
    let '(s', ids) := ScrubSession (scr w) rest in
    (s', allocated w ++ ids)
  end.

(** The IDs [a, a+1, ..., a+k-1] of a uint64 counter. *)
Definition ids_from (a : N) (k : nat) : list N :=
  (fun i => ((a + N.of_nat i) mod two64)%N) <$> List.seq 0 k.

(** A walk that starts with the counter at [a] allocates the IDs
    [a, a+1, ...] in this order and leaves the counter after the last. *)
Definition allocates (w w' : walk) : Prop :=
  (seq (scr w) < two64)%N ->
  exists k : nat,
    allocated w' = allocated w ++ ids_from (seq (scr w)) k /\
    seq (scr w') = ((seq (scr w) + N.of_nat k) mod two64)%N.

(** *** Vocabulary of further statements about the scrubber *)

(** A method that collectMethods registers: exported, and of the type
    func(p *Partial). *)
Definition registrable (m : Method) : bool :=
  String.eqb (MPkgPath m) "" &&
  match MType m with FuncPartial => true | _ => false end.

(** The registration of a method of a value that is at [path]. *)
Definition storeMethod (path : Path) (w : walk) (m : Method) : walk :=
  store (MFunc m) (path ++ [PStr (lowerFirst (MName m))]) w.

(** The registry of a scrubber whose counter did not wrap: every key is
    below the counter. *)
Definition fresh_above (s : Scrubber) : Prop :=
  (seq s < two64)%N /\
  forall id, is_Some (callbacks s !! id) -> (id < seq s)%N.









End Dnode.

(* ===================================================================== *)
(** ** Package dnode: the message *)
(* ===================================================================== *)

Module Wire.
Import Strconv Dnode.

(** A decoded JSON document, over the type [F] of the float64 values.
    [TFunc id] is the proxy that ParseCallbacks puts at a callback
    position: called with values, it calls [sender(id, values)]. *)
#[local] Unset Elimination Schemes.
Inductive tree (F : Type) : Type :=
| TNull
| TBool (b : bool)
| TNum (x : F)
| TStr (s : string)
| TArr (l : list (tree F))
| TObj (m : list (string * tree F))
| TFunc (id : N).
#[local] Set Elimination Schemes.
Arguments TNull {F}. Arguments TBool {F}. Arguments TNum {F}.
Arguments TStr {F}. Arguments TArr {F}. Arguments TObj {F}.
Arguments TFunc {F}.

(** The method slot, an [interface{}]: a string or a uint64 when the
    message is built here, a float64 or a string (or another JSON kind)
    when json.Unmarshal filled it. *)
Inductive method_value (F : Type) : Type :=
| MethodString (s : string)
| MethodUint64 (n : N)
| MethodFloat64 (x : F)
| MethodOther.
Arguments MethodString {F}. Arguments MethodUint64 {F}.
Arguments MethodFloat64 {F}. Arguments MethodOther {F}.

(** Modelled from the spec: the Message, "the unit on the wire" (file
    message.go is missing); links is unused.  The raw arguments are the
    JSON document that the bytes spell. *)
Record Message (F : Type) : Type := mkMessage {
  Method : method_value F;
  Arguments : tree F;
  Callbacks : gmap string Path;
}.
Arguments mkMessage {F}. Arguments Method {F}. Arguments Arguments {F}.
Arguments Callbacks {F}.

Inductive result (A : Type) : Type :=
| Ok (a : A)
| Err (msg : string).
Arguments Ok {A}. Arguments Err {A}.

Section Paths.
Context {F : Type}.

(** The first entry of a JSON object with the key, and its update. *)
Fixpoint obj_get (k : string) (m : list (string * tree F)) : option (tree F) :=
  match m with
  | [] => None
  | (k', x) :: rest => if String.eqb k k' then Some x else obj_get k rest
  end.

Fixpoint obj_set (k : string) (x : tree F) (m : list (string * tree F))
  : list (string * tree F) :=
  match m with
  | [] => []
  | (k', y) :: rest =>
    if String.eqb k k' then (k', x) :: rest else (k', y) :: obj_set k x rest
  end.

(** Modelled from the spec: "Path elements are interpreted per slot type:
    integers index sequences; strings index mappings". *)
Fixpoint lookupPath (path : Path) (t : tree F) : option (tree F) :=
  match path with
  | [] => Some t
  | PInt i :: rest =>
    match t with
    | TArr l =>
      if (0 <=? i)%Z then
        match l !! Z.to_nat i with
        | Some x => lookupPath rest x
        | None => None
        end
      else None
    | _ => None
    end
  | PStr k :: rest =>
    match t with
    | TObj m =>
      match obj_get k m with
      | Some x => lookupPath rest x
      | None => None
      end
    | _ => None
    end
  end.

(** Modelled from the spec: "descend into the deserialized argument tree
    following path and replace the slot at that path"; [None] when the
    path leads nowhere, which the spec leaves open. *)
Fixpoint replacePath (path : Path) (new : tree F) (t : tree F)
  : option (tree F) :=
  match path with
  | [] => Some new
  | PInt i :: rest =>
    match t with
    | TArr l =>
      if (0 <=? i)%Z then
        match l !! Z.to_nat i with
        | Some x =>
          match replacePath rest new x with
          | Some x' => Some (TArr (<[Z.to_nat i := x']> l))
          | None => None
          end
        | None => None
        end
      else None
    | _ => None
    end
  | PStr k :: rest =>
    match t with
    | TObj m =>
      match obj_get k m with
      | Some x =>
        match replacePath rest new x with
        | Some x' => Some (TObj (obj_set k x' m))
        | None => None
        end
      | None => None
      end
    | _ => None
    end
  end.

(** One entry of the callbacks field. *)
Definition parseCallback (entry : string * Path) (args : tree F)
  : result (tree F) :=
  let '(methodID, path) := entry in
  let '(id, ok) := ParseUint methodID in
  if ok then
    match replacePath path (TFunc id) args with
    | Some args' => Ok args'
    | None => Err "callback path not found"
    end
  else Err "invalid callback id".

Fixpoint parseCallbacks (entries : list (string * Path)) (args : tree F)
  : result (tree F) :=
  match entries with
  | [] => Ok args
  | entry :: rest =>
    match parseCallback entry args with
    | Ok args' => parseCallbacks rest args'
    | Err e => Err e
    end
  end.

(** Modelled from the spec: "ParseCallbacks(message, sender): for every
    (id, path) in the message's callbacks field, descend into the
    deserialized argument tree following path and replace the slot at
    that path with an invocable proxy" (file message.go is missing).  The
    sender is the one of the session; see [Kite.Call]. *)
Definition ParseCallbacks (msg : Message F) : result (Message F) :=
  match parseCallbacks (map_to_list (Callbacks msg)) (Arguments msg) with
  | Ok args => Ok (mkMessage (Method msg) args (Callbacks msg))
  | Err e => Err e
  end.

(** Two paths neither of which is a prefix of the other (nor equal). *)
Definition apart (p q : Path) : Prop := ~ p `prefix_of` q /\ ~ q `prefix_of` p.

End Paths.
End Wire.

(* ===================================================================== *)
(** ** Package kite: client.go and the request part *)
(* ===================================================================== *)

Module Kite.
Import Strconv Dnode Wire.

(** protocol.Kite (package protocol is missing); the code under study
    reads Name and Username. *)
Record protocolKite : Type := mkKite {
  Kite_Name : string;
  Kite_Username : string;
}.

Record Authentication : Type := mkAuthentication {
  Auth_Type : string;     (* field Type *)
  Auth_Key : string;
}.

(** The type Error (fields Type and Message). *)
Record Error : Type := mkError {
  Error_Type : string;
  Error_Message : string;
}.

(** callOptions as json.Unmarshal fills it.  ResponseCallback is the id
    of the proxy in Caller, [None] when Caller is nil. *)
Record callOptions (F : Type) : Type := mkCallOptions {
  opt_Kite : protocolKite;
  opt_Authentication : option Authentication;
  opt_WithArgs : option (tree F);
  opt_ResponseCallback : option N;
}.
Arguments mkCallOptions {F}. Arguments opt_Kite {F}.
Arguments opt_Authentication {F}. Arguments opt_WithArgs {F}.
Arguments opt_ResponseCallback {F}.

(** What the code takes from outside: float64 and its conversion
    [uint64(x)], encoding/json on the types it is used at, the decoding
    of the call options out of a Partial (files partial.go and
    function.go are missing), and fmt. *)
Class Env : Type := {
  float64 : Type;
  frame : Type;                       (* the bytes of one websocket frame *)
  Float64ToUint64 : float64 -> N;
  json_Marshal : list value -> result (tree float64);
  json_MarshalMessage : Message float64 -> result frame;
  json_Unmarshal : frame -> result (Message float64);
  UnmarshalOptions : tree float64 -> option (callOptions float64);
  MethodNotFoundError_Error : string -> string;
    (* the text of a MethodNotFoundError (file errors.go is missing) *)
  timeoutText : string -> Z -> string;
    (* fmt.Sprintf("No response to %q method in %s", method, timeout) *)
}.

(** A function that returns [A] or panics. *)
Inductive exec (A : Type) : Type :=
| Return (a : A)
| Panic (p : panic).
Arguments Return {A}. Arguments Panic {A}.

(** *** Channels of capacity one *)

Record chan (A : Type) : Type := mkChan {
  buf : list A;
  closed : bool;
}.
Arguments mkChan {A}. Arguments buf {A}. Arguments closed {A}.

Definition make {A : Type} : chan A := mkChan [] false.
Definition chan_send {A : Type} (x : A) (ch : chan A) : chan A :=
  mkChan (buf ch ++ [x]) (closed ch).
Definition chan_close {A : Type} (ch : chan A) : chan A :=
  mkChan (buf ch) true.

(** [x, ok := <-ch]: [None] when the receive blocks. *)
Definition chan_recv {A : Type} (ch : chan A) : option (option A * chan A) :=
  match buf ch with
  | x :: rest => Some (Some x, mkChan rest (closed ch))
  | [] => if closed ch then Some (None, ch) else None
  end.

Section Client.
Context `{Env}.

(** The websocket connection: the address of the remote side when the
    connection came in through the server ("" when this side dialled),
    the error with which a write fails if it does, and the frames written
    so far, oldest first. *)
Record Conn : Type := mkConn {
  RemoteAddr_of : string;
  failure : option string;
  wire : list frame;
}.

Record Client : Type := mkClient {
  Kite : protocolKite;                    (* the embedded protocol.Kite *)
  Client_Authentication : option Authentication;
  tellTimeout : Z;
  conn : option Conn;                     (* nil when not connected *)
  scrubber : Scrubber;
  firstRequestHandlersNotified : bool;    (* the sync.Once has fired *)
}.

Definition set_scrubber (s : Scrubber) (c : Client) : Client :=
  mkClient (Kite c) (Client_Authentication c) (tellTimeout c) (conn c) s
           (firstRequestHandlersNotified c).

Definition set_conn (cn : option Conn) (c : Client) : Client :=
  mkClient (Kite c) (Client_Authentication c) (tellTimeout c) cn (scrubber c)
           (firstRequestHandlersNotified c).

Definition set_Kite (k : protocolKite) (c : Client) : Client :=
  mkClient k (Client_Authentication c) (tellTimeout c) (conn c) (scrubber c)
           (firstRequestHandlersNotified c).

Definition set_notified (c : Client) : Client :=
  mkClient (Kite c) (Client_Authentication c) (tellTimeout c) (conn c)
           (scrubber c) true.

Definition RemoteAddr (c : Client) : string :=
  match conn c with
  | Some cn => RemoteAddr_of cn
  | None => ""
  end.

(** *** Sending *)

(** sendData; the echo to standard error is left out. *)
Definition sendData (c : Client) (msg : frame) : Client * option string :=
  match conn c with
  | None => (c, Some "not connected")
  | Some cn =>
    match failure cn with
    | Some e => (c, Some e)
    | None =>
      (set_conn (Some (mkConn (RemoteAddr_of cn) None (wire cn ++ [msg]))) c,
       None)
    end
  end.

Definition removeCallbacks (c : Client) (callbacks : gmap string Path)
  : Client :=
  set_scrubber
    (foldr (fun entry s => RemoveCallback s (fst (ParseUint (fst entry))))
           (scrubber c) (map_to_list callbacks))
    c.

(** The deferred function of marshalAndSend.  It reads the named results
    [callbacks] and [err] as the return statement left them. *)
Definition marshalAndSend_deferred (c : Client)
  (callbacks : gmap string Path) (err : option string)
  : Client * exec (gmap string Path * option string) :=
  (match err with Some _ => removeCallbacks c callbacks | None => c end,
   Return (callbacks, err)).

(** marshalAndSend.  [return nil, err] sets the named result callbacks to
    nil, a map that ranges over nothing, before the deferred function
    runs; the bare [return] after sendData keeps it. *)
Definition marshalAndSend (c : Client) (method : method_value float64)
  (arguments : list value)
  : Client * exec (gmap string Path * option string) :=
  match Scrub (scrubber c) (VSlice arguments) with
  | Panicked p w => (set_scrubber (scr w) c, Panic p)
  | Done w =>
    let c := set_scrubber (scr w) c in
    let callbacks := cbmap w in
    match json_Marshal arguments with
    | Err e => marshalAndSend_deferred c ∅ (Some e)
    | Ok rawArgs =>
      let msg := mkMessage method rawArgs callbacks in
      match json_MarshalMessage msg with
      | Err e => marshalAndSend_deferred c ∅ (Some e)
      | Ok data =>
        let '(c, err) := sendData c data in
        marshalAndSend_deferred c callbacks err
      end
    end
  end.

(** sendCallbackID over the entries in the order [range] visits them. *)
Fixpoint sendCallbackID_range (entries : list (string * Path)) (ch : chan N)
  : chan N :=
  match entries with
  | [] => chan_close ch
  | (id, path) :: rest =>
    match path with
    | [PStr p0; PStr p1] =>
      if negb (String.eqb p0 "0") || negb (String.eqb p1 "responseCallback")
      then sendCallbackID_range rest ch
      else chan_send (fst (ParseUint id)) ch
    | _ => sendCallbackID_range rest ch
    end
  end.

Definition sendCallbackID (callbacks : gmap string Path) (ch : chan N)
  : chan N :=
  sendCallbackID_range (map_to_list callbacks) ch.

(** *** Go values of the structs the client sends *)

Definition field (name json dnode : string) (v : value) : StructField value :=
  mkField name "" dnode json false TOther v.

Definition Kite_value (k : protocolKite) : value :=
  VStruct [field "Name" "name" "" (VStr (Kite_Name k));
           field "Username" "username" "" (VStr (Kite_Username k))] [].

Definition Authentication_value (a : option Authentication) : value :=
  match a with
  | None => VPtr [] None
  | Some a =>
    VPtr [] (Some (VStruct [field "Type" "type" "" (VStr (Auth_Type a));
                            field "Key" "key" "" (VStr (Auth_Key a))] []))
  end.

(** The type Function of package kite, [struct{ dnode.Function }], around
    [f]: what [Callback(f)] returns. *)
Definition KiteCallback (f : callable) : value :=
  VStruct [mkField "Function" "" "" "" true TOther (Dnode.Callback f)] [].

(** callOptionsOut.  The embedded callOptions is a field with an empty
    PkgPath, as reflect reported it when the code was written; the
    scrubber walks into it. *)
Definition callOptionsOut_value (kite : protocolKite)
  (auth : option Authentication) (responseCallback : value)
  (args : list value) : value :=
  VStruct
    [mkField "callOptions" "" "" "" true TOther
       (VStruct [field "Kite" "kite" "-" (Kite_value kite);
                 field "Authentication" "authentication" ""
                       (Authentication_value auth);
                 field "WithArgs" "withArgs" "-" (VPtr [] None);
                 field "ResponseCallback" "responseCallback" ""
                       responseCallback] []);
     field "WithArgs" "withArgs" "" (VSlice args)] [].

(** Request.  The pointers LocalKite and Client are not fields here: the
    functions that take a request take the local kite and the client it
    points to as arguments. *)
Record Request : Type := mkRequest {
  Request_Method : string;
  Args : option (tree float64);
  Username : string;
  Request_Authentication : option Authentication;
}.

(** What a handler gives: [(result, err)], or a panic.  An error or a
    panic value is an Error pointer, a dnode.ArgumentError, or anything
    else, with its text. *)
Inductive thrown : Type :=
| ThrownError (e : Error)
| ThrownArgumentError (msg : string)
| ThrownOther (msg : string).

Inductive handled : Type :=
| HReturn (result : value) (err : option thrown)
| HPanic (r : thrown).

(** A handler reads the request and, through request.Client, the client
    as it is at the time of the call. *)
Definition HandlerFunc : Type := Client -> Request -> handled.

(** An authenticator may set fields of the request and returns an error
    or nil. *)
Definition Authenticator : Type := Request -> Request * option string.

(** The local kite, as far as the client reads it. *)
Record LocalKite : Type := mkLocalKite {
  handlers : gmap string HandlerFunc;
  Authenticators : gmap string Authenticator;
  DisableAuthentication : bool;        (* Config.DisableAuthentication *)
  LocalKite_Kite : protocolKite;       (* Kite() *)
}.

Definition wrapMethodArgs (k : LocalKite) (c : Client) (args : list value)
  (responseCallback : value) : list value :=
  [callOptionsOut_value (LocalKite_Kite k) (Client_Authentication c)
                        responseCallback args].

(** makeResponseCallback: the envelope around the closure. *)
Definition makeResponseCallback (method : string) : value :=
  KiteCallback (ResponseFunc method).

(** *** Go and Tell *)

Record response : Type := mkResponse {
  Result : option (tree float64);
  Err_of : option Error;
}.

(** What sendMethod leaves behind: the response channel, the
    remove-callback channel, and the timeout of the waiter goroutine if
    one was started. *)
Record call : Type := mkCall {
  responseChan : chan response;
  removeCallback : chan N;
  waiter_timeout : option Z;
}.

Definition sendMethod (k : LocalKite) (c : Client) (method : string)
  (args : list value) (timeout : Z) (responseChan : chan response)
  : Client * exec call :=
  let removeCallback := @make N in
  let cb := makeResponseCallback method in
  let args := wrapMethodArgs k c args cb in
  match marshalAndSend c (MethodString method) args with
  | (c, Panic p) => (c, Panic p)
  | (c, Return (callbacks, Some err)) =>
    (c, Return (mkCall
                  (chan_send (mkResponse None (Some (mkError "sendError" err)))
                             responseChan)
                  removeCallback None))
  | (c, Return (callbacks, None)) =>
    let timeout := if (timeout =? 0)%Z then tellTimeout c else timeout in
    (c, Return (mkCall responseChan
                       (sendCallbackID callbacks removeCallback)
                       (Some timeout)))
  end.

Definition GoWithTimeout (k : LocalKite) (c : Client) (method : string)
  (timeout : Z) (args : list value) : Client * exec call :=
  sendMethod k c method args timeout make.

Definition Go (k : LocalKite) (c : Client) (method : string)
  (args : list value) : Client * exec call :=
  GoWithTimeout k c method 0 args.

(** The event that ends the select of the waiter goroutine. *)
Inductive wakeup : Type :=
| DoneChan (resp : response)
| DisconnectClosed
| TimeAfter.

(** The waiter goroutine of sendMethod; [None] when it blocks on the
    remove-callback channel. *)
Definition waiter (c : Client) (method : string) (cl : call) (ev : wakeup)
  : option (Client * call) :=
  match waiter_timeout cl with
  | None => Some (c, cl)
  | Some timeout =>
    match ev with
    | DoneChan resp =>
      Some (c, mkCall (chan_send resp (responseChan cl)) (removeCallback cl)
                      (waiter_timeout cl))
    | DisconnectClosed =>
      Some (c, mkCall
                 (chan_send (mkResponse None
                    (Some (mkError "disconnect" "Remote kite has disconnected")))
                    (responseChan cl))
                 (removeCallback cl) (waiter_timeout cl))
    | TimeAfter =>
      let rc := chan_send (mkResponse None
                  (Some (mkError "timeout" (timeoutText method timeout))))
                  (responseChan cl) in
      match chan_recv (removeCallback cl) with
      | None => None
      | Some (Some id, ch) =>
        Some (set_scrubber (RemoveCallback (scrubber c) id) c,
              mkCall rc ch (waiter_timeout cl))
      | Some (None, ch) => Some (c, mkCall rc ch (waiter_timeout cl))
      end
    end
  end.

(** TellWithTimeout: GoWithTimeout, then the receive from the response
    channel, which the waiter ends by [ev] unless the send failed. *)
Definition TellWithTimeout (k : LocalKite) (c : Client) (method : string)
  (timeout : Z) (args : list value) (ev : wakeup)
  : option (Client * exec response) :=
  match GoWithTimeout k c method timeout args with
  | (c, Panic p) => Some (c, Panic p)
  | (c, Return cl) =>
    match waiter c method cl ev with
    | None => None
    | Some (c, cl) =>
      match chan_recv (responseChan cl) with
      | Some (Some r, _) => Some (c, Return r)
      | _ => None
      end
    end
  end.

Definition Tell (k : LocalKite) (c : Client) (method : string)
  (args : list value) (ev : wakeup) : option (Client * exec response) :=
  TellWithTimeout k c method 0 args ev.

(** *** Receiving *)

(** The sender closure of processMessage. *)
Definition sender (c : Client) (id : N) (args : list value)
  : Client * exec (option string) :=
  match marshalAndSend c (MethodUint64 id) args with
  | (c, Panic p) => (c, Panic p)
  | (c, Return (_, err)) => (c, Return err)
  end.

(** Modelled from the spec: "The proxy, when called with a list of
    values, invokes sender(id, values)" (file function.go is missing).
    [None] when the slot holds no proxy. *)
Definition Call (c : Client) (f : tree float64) (values : list value)
  : option (Client * exec (option string)) :=
  match f with
  | TFunc id => Some (sender c id values)
  | _ => None
  end.

(** The errors processMessage returns. *)
Inductive perror : Type :=
| UnmarshalError (msg : string)
| ParseCallbacksError (msg : string)
| CallbackNotFoundError (id : N) (args : tree float64)
| MethodNotFoundError (method : string) (args : tree float64)
| MethodKindError.  (* "Mehtod is not string or integer: ..." *)

(** Response, the only argument of a response callback. *)
Record Response : Type := mkResponseValue {
  Response_Error : option Error;
  Response_Result : value;
}.

Definition Error_value (e : option Error) : value :=
  match e with
  | None => VPtr [] None
  | Some e =>
    VPtr [mkMethod "Error" "" FuncOther (UserFunc 0)]
         (Some (VStruct [field "Type" "type" "" (VStr (Error_Type e));
                         field "Message" "message" "" (VStr (Error_Message e))]
                        [mkMethod "Error" "" FuncOther (UserFunc 0)]))
  end.

Definition Response_value (r : Response) : value :=
  VStruct [field "Error" "error" "-" (Error_value (Response_Error r));
           mkField "Result" "" "" "result" false (TInterface false)
                   (Response_Result r)] [].

(** What the code does to the world besides its own state, in order. *)
Inductive event : Type :=
| FirstRequest (remote : protocolKite)  (* callOnFirstRequestHandlers *)
| Authenticate (type : string) (r : Request)       (* f(r) *)
| Handle (method : string) (c : Client) (r : Request) (* handlerFunc(request) *)
| Reply (id : N) (r : Response)                    (* callback.Call(response) *)
| RunCallback (cb : callable) (args : tree float64).   (* callback(args) *)

(** Modelled from the spec: "Unwrap the first argument as the
    call-options object" (file partial.go is missing): [One] is the first
    element of the arguments, and a panic with an ArgumentError when there
    is none. *)
Definition One (arguments : tree float64) : option (tree float64) :=
  match arguments with
  | TArr (x :: _) => Some x
  | _ => None
  end.

(** newRequest; [None] when MustUnmarshal panics (an ArgumentError). *)
Definition newRequest (c : Client) (method : string)
  (arguments : tree float64)
  : option (Client * list event * Request * option N) :=
  match One arguments with
  | None => None
  | Some first =>
    match UnmarshalOptions first with
    | None => None
    | Some options =>
      let '(c, evs) :=
        if negb (String.eqb (RemoteAddr c) "")
           && negb (firstRequestHandlersNotified c)
        then (set_notified (set_Kite (opt_Kite options) c),
              [FirstRequest (opt_Kite options)])
        else (c, []) in
      Some (c, evs,
            mkRequest method (opt_WithArgs options) ""
                      (opt_Authentication options),
            opt_ResponseCallback options)
    end
  end.

Definition authenticationError (msg : string) : Error :=
  mkError "authenticationError" msg.

(** authenticate.  The request points to the client and to the local
    kite; they are the arguments [c] and [k]. *)
Definition authenticate (k : LocalKite) (c : Client) (r : Request)
  : Client * Request * list event * option Error :=
  if String.eqb (RemoteAddr c) "" then (c, r, [], None)
  else
    match Request_Authentication r with
    | None =>
      (c, r, [],
       Some (authenticationError "No authentication information is provided"))
    | Some a =>
      match Authenticators k !! Auth_Type a with
      | None =>
        (c, r, [],
         Some (authenticationError
                 (String.append "Unknown authentication type: " (Auth_Type a))))
      | Some f =>
        let '(r', err) := f r in
        match err with
        | Some e => (c, r', [Authenticate (Auth_Type a) r],
                     Some (authenticationError e))
        | None =>
          (set_Kite (mkKite (Kite_Name (Kite c)) (Username r')) c, r',
           [Authenticate (Auth_Type a) r], None)
        end
      end
    end.

(** recoverError, on the value that was thrown. *)
Definition recoverError (r : thrown) : Error :=
  match r with
  | ThrownError e => e
  | ThrownArgumentError msg => mkError "argumentError" msg
  | ThrownOther msg => mkError "genericError" msg
  end.

(** The first deferred function of runMethod: the reply. *)
Definition runMethod_reply (c : Client) (callback : option N)
  (result : value) (kiteErr : option Error)
  : Client * list event * option panic :=
  match callback with
  | None => (c, [], None)
  | Some id =>
    let resp := mkResponseValue kiteErr result in
    match sender c id [Response_value resp] with
    | (c, Panic p) => (c, [Reply id resp], Some p)
    | (c, Return _) => (c, [Reply id resp], None)
    end
  end.

(** runMethod: the client afterwards, the events in order, and the panic
    that leaves runMethod if the reply itself panics. *)
Definition runMethod (k : LocalKite) (c : Client) (method : string)
  (handlerFunc : HandlerFunc) (args : tree float64)
  : Client * list event * option panic :=
  match newRequest c method args with
  | None => (c, [], None)   (* recovered; callback is still the zero value *)
  | Some (c, evs0, request, callback) =>
    let '(c, request, evs1, kiteErr) :=
      if DisableAuthentication k then (c, request, [], None)
      else authenticate k c request in
    match kiteErr with
    | Some e =>
      let '(c, evs2, p) := runMethod_reply c callback VNil (Some e) in
      (c, evs0 ++ evs1 ++ evs2, p)
    | None =>
      let ev := Handle method c request in
      let '(result, kiteErr) :=
        match handlerFunc c request with
        | HReturn result None => (result, None)
        | HReturn result (Some err) => (result, Some (recoverError err))
        | HPanic r => (VNil, Some (recoverError r))
        end in
      let '(c, evs2, p) := runMethod_reply c callback result kiteErr in
      (c, evs0 ++ evs1 ++ [ev] ++ evs2, p)
    end
  end.

(** runCallback: the callable runs under recover; what it does is its
    own business, the event records the call. *)
Definition runCallback (c : Client) (callback : callable)
  (args : tree float64) : Client * list event :=
  (c, [RunCallback callback args]).

(** onError, the deferred function of processMessage. *)
Definition onError (c : Client) (err : perror)
  : Client * list event * option panic :=
  match err with
  | MethodNotFoundError method args =>
    match args with
    | TArr (first :: _) =>
      match UnmarshalOptions first with
      | Some options =>
        match opt_ResponseCallback options with
        | Some id =>
          let resp :=
            mkResponseValue
              (Some (mkError "methodNotFound"
                             (MethodNotFoundError_Error method)))
              VNil in
          match sender c id [Response_value resp] with
          | (c, Panic p) => (c, [Reply id resp], Some p)
          | (c, Return _) => (c, [Reply id resp], None)
          end
        | None => (c, [], None)
        end
      | None => (c, [], None)
      end
    | _ => (c, [], None)
    end
  | _ => (c, [], None)
  end.

(** The switch on [msg.Method] of processMessage. *)
Definition dispatch (k : LocalKite) (c : Client) (msg : Message float64)
  : Client * list event * option panic * option perror :=
  match Method msg with
  | MethodFloat64 method =>
    let id := Float64ToUint64 method in
    match GetCallback (scrubber c) id with
    | None => (c, [], None, Some (CallbackNotFoundError id (Arguments msg)))
    | Some callback =>
      let '(c, evs) := runCallback c callback (Arguments msg) in
      (c, evs, None, None)
    end
  | MethodString method =>
    match handlers k !! method with
    | None => (c, [], None, Some (MethodNotFoundError method (Arguments msg)))
    | Some handler =>
      let '(c, evs, p) := runMethod k c method handler (Arguments msg) in
      (c, evs, p, None)
    end
  | _ => (c, [], None, Some MethodKindError)
  end.

(** processMessage: the client afterwards, the events, a panic that
    leaves it, and the error it returns.  The deferred function runs
    onError on the error; the error of the default case is returned
    without being stored in [err], and onError ignores that kind. *)
Definition processMessage (k : LocalKite) (c : Client) (data : frame)
  : Client * list event * option panic * option perror :=
  let '(c, evs, p, err) :=
    match json_Unmarshal data with
    | Err e => (c, [], None, Some (UnmarshalError e))
    | Ok msg =>
      match ParseCallbacks msg with
      | Err e => (c, [], None, Some (ParseCallbacksError e))
      | Ok msg => dispatch k c msg
      end
    end in
  match err with
  | Some e =>
    let '(c, evs', p') := onError c e in (c, evs ++ evs', p', err)
  | None => (c, evs, p, err)
  end.

End Client.

(** *** An instance to run the code on

    float64 values that are integers, frames that are the messages
    themselves (a uint64 method is read back as a float64), and an
    encoder for the values that encoding/json accepts: a func, and a
    value of a kind that [value] does not describe (a channel, say), are
    refused; a Function envelope encodes as the string "[Function]";
    the fields of an embedded struct come after the fields of the struct
    itself, so that the outer field wins. *)

Section MapM.
Context {A B : Type} (f : A -> result B).
Fixpoint mapM (l : list A) : result (list B) :=
  match l with
  | [] => Ok []
  | x :: rest =>
    match f x with
    | Ok y =>
      match mapM rest with
      | Ok ys => Ok (y :: ys)
      | Err e => Err e
      end
    | Err e => Err e
    end
  end.
End MapM.

Definition result_map {A B : Type} (f : A -> B) (r : result A) : result B :=
  match r with
  | Ok a => Ok (f a)
  | Err e => Err e
  end.

Fixpoint demo_encode (v : value) : result (tree Z) :=
  match v with
  | VNil => Ok TNull
  | VBool b => Ok (TBool b)
  | VNum n => Ok (TNum n)
  | VStr s => Ok (TStr s)
  | VOther => Err "json: unsupported type"
  | VFunc _ _ => Err "json: unsupported type"
  | VSlice obj | VPtrSlice (Some obj) => result_map TArr (mapM demo_encode obj)
  | VMap obj | VPtrMap (Some obj) =>
    result_map TObj
      (mapM (fun kv => result_map (pair (fst kv)) (demo_encode (snd kv))) obj)
  | VPtrSlice None | VPtrMap None | VPtr _ None => Ok TNull
  | VPtr _ (Some e) => demo_encode e
  | VStruct fs _ =>
    if isFunction v then Ok (TStr "[Function]")
    else
      result_map (fun l => TObj (concat (fst <$> l) ++ concat (snd <$> l)))
        (mapM (fun f =>
                 if negb (String.eqb (PkgPath f) "") || String.eqb (TagJson f) "-"
                 then Ok ([], [])
                 else result_map
                        (fun t =>
                           match Anonymous f, t with
                           | true, TObj m => ([], m)
                           | _, _ =>
                             ([(if String.eqb (TagJson f) ""
                                then Name f else TagJson f, t)], [])
                           end)
                        (demo_encode (FValue f)))
              fs)
  end.

Definition demo_string (t : option (tree Z)) : string :=
  match t with Some (TStr s) => s | _ => "" end.

Definition demo_options (t : tree Z) : option (callOptions Z) :=
  match t with
  | TObj m =>
    Some (mkCallOptions
            (match obj_get "kite" m with
             | Some (TObj km) =>
               mkKite (demo_string (obj_get "name" km))
                      (demo_string (obj_get "username" km))
             | _ => mkKite "" ""
             end)
            (match obj_get "authentication" m with
             | Some (TObj am) =>
               Some (mkAuthentication (demo_string (obj_get "type" am))
                                      (demo_string (obj_get "key" am)))
             | _ => None
             end)
            (obj_get "withArgs" m)
            (match obj_get "responseCallback" m with
             | Some (TFunc id) => Some id
             | _ => None
             end))
  | _ => None
  end.

Definition demo_unmarshal (msg : Message Z) : result (Message Z) :=
  Ok (mkMessage
        (match Method msg with
         | MethodUint64 n => MethodFloat64 (Z.of_N n)
         | m => m
         end)
        (Arguments msg) (Callbacks msg)).

#[export] Instance demoEnv : Env := {|
  float64 := Z;
  frame := Message Z;
  Float64ToUint64 := Z.to_N;
  json_Marshal := fun args => result_map TArr (mapM demo_encode args);
  json_MarshalMessage := Ok;
  json_Unmarshal := demo_unmarshal;
  UnmarshalOptions := demo_options;
  MethodNotFoundError_Error := String.append "method not found: ";
  timeoutText := fun method _ => String.append "No response to " method;
|}.

(** A local kite with an echo handler and an authenticator for the type
    "token" that takes the key for the user name and refuses the empty
    key; a client that is not connected, one that dialled, and one that
    was accepted from a remote address. *)
Definition demo_kite : LocalKite :=
  mkLocalKite
    {[ "echo" := fun (_ : Client) (r : Request) =>
                   HReturn (VStr (Username r)) None ]}
    {[ "token" := fun r : Request =>
         match Request_Authentication r with
         | Some a =>
           if String.eqb (Auth_Key a) "" then (r, Some "Invalid signature in token")
           else (mkRequest (Request_Method r) (Args r) (Auth_Key a)
                           (Request_Authentication r), None)
         | None => (r, Some "no key")
         end ]}
    false (mkKite "local" "bob").

Definition demo_client (cn : option Conn) : Client :=
  mkClient (mkKite "remote" "") None 4000 cn NewScrubber false.

Definition demo_dialled : Client := demo_client (Some (mkConn "" None [])).
Definition demo_accepted : Client :=
  demo_client (Some (mkConn "10.0.0.7:5555" None [])).

(** The arguments of an inbound call as they are decoded: a caller that
    reports [username] and presents the token [key], and the proxy 0 as
    response callback. *)
Definition demo_call (username key : string) : tree Z :=
  TArr [TObj [("kite", TObj [("name", TStr "mallory");
                             ("username", TStr username)]);
              ("authentication", TObj [("type", TStr "token");
                                       ("key", TStr key)]);
              ("withArgs", TArr [TStr "hi"]);
              ("responseCallback", TFunc 0)]].

Definition demo_echo : HandlerFunc :=
  fun (_ : Client) (r : Request) => HReturn (VStr (Username r)) None.

(** A client on which the callback 1 is registered. *)
Definition demo_registered : Client :=
  mkClient (mkKite "remote" "") None 4000 (Some (mkConn "" None []))
           (mkScrubber {[ 1%N := UserFunc 5 ]} 2) false.

(** *** Handlers and the two authenticators of the kite *)

(** HandleFunc: [k.handlers[method] = handler]. *)
Definition HandleFunc `{Env} (k : LocalKite) (method : string)
  (handler : HandlerFunc) : LocalKite :=
  mkLocalKite (<[method := handler]> (handlers k)) (Authenticators k)
              (DisableAuthentication k) (LocalKite_Kite k).

(** A claim of a token, an [interface{}]: a string, or something else. *)
Inductive claim : Type :=
| ClaimString (s : string)
| ClaimOther.

(** The token that jwt.Parse returns, as far as the authenticators read
    it. *)
Record Token : Type := mkToken {
  Valid : bool;
  Claims : gmap string claim;
}.

(** [s, ok := token.Claims[name].(string)]. *)
Definition claim_string (t : Token) (name : string) : option string :=
  match Claims t !! name with
  | Some (ClaimString s) => Some s
  | _ => None
  end.

(** The panic of [r.Authentication.Key] on a nil Authentication. *)
Definition nil_dereference : panic :=
  PanicString "runtime error: invalid memory address or nil pointer dereference".

Section Authenticators.
Context `{Env}.
(** jwt.Parse with the key function that the authenticator passes (the
    RSA key of the local kite, the key of kontrol), and the string form
    of the local kite, [k.Kite().String()]; packages jwt-go, kitekey and
    protocol are not part of the sources. *)
Variable jwt_Parse_RSAKey : string -> result Token.
Variable jwt_Parse_KontrolKey : string -> result Token.
Variable Kite_String : string.

Definition set_Username (username : string) (r : Request) : Request :=
  mkRequest (Request_Method r) (Args r) username (Request_Authentication r).

(** AuthenticateFromToken: the request afterwards and the error, or the
    panic on a request without credentials. *)
Definition AuthenticateFromToken (r : Request) : exec (Request * option string) :=
  match Request_Authentication r with
  | None => Panic nil_dereference
  | Some a =>
    match jwt_Parse_RSAKey (Auth_Key a) with
    | Err e => Return (r, Some e)
    | Ok token =>
      if negb (Valid token) then Return (r, Some "Invalid signature in token")
      else
        let audience := default "" (claim_string token "aud") in
        if negb (bool_decide (is_Some (claim_string token "aud")))
           || negb (String.prefix audience Kite_String)
        then Return (r, Some (String.append "Invalid audience in token: "
                                            audience))
        else
          match claim_string token "sub" with
          | None => Return (r, Some "Username is not present in token")
          | Some username => Return (set_Username username r, None)
          end
    end
  end.

(** AuthenticateFromKiteKey. *)
Definition AuthenticateFromKiteKey (r : Request) : exec (Request * option string) :=
  match Request_Authentication r with
  | None => Panic nil_dereference
  | Some a =>
    match jwt_Parse_KontrolKey (Auth_Key a) with
    | Err e => Return (r, Some e)
    | Ok token =>
      if negb (Valid token) then Return (r, Some "Invalid signature in token")
      else
        match claim_string token "sub" with
        | None => Return (r, Some "Username is not present in token")
        | Some username => Return (set_Username username r, None)
        end
    end
  end.

End Authenticators.

(** A parser of tokens to run the authenticators on: the key
    "sub:aud" stands for a signed token with these two claims, a key
    without a colon for a token that does not parse. *)
Definition demo_parse (key : string) : result Token :=
  match String.index 0 ":" key with
  | Some i =>
    Ok (mkToken true
          {[ "sub" := ClaimString (String.substring 0 i key);
             "aud" := ClaimString (String.substring (S i)
                                     (String.length key - S i) key) ]})
  | None => Err "token contains an invalid number of segments"
  end.

End Kite.

(* ===================================================================== *)
(** * Properties *)
(* ===================================================================== *)

Import Strconv Dnode.

(** ** strconv *)

Lemma FormatUint_nonempty (n : N) : FormatUint n <> EmptyString.
Proof.
  unfold FormatUint. intros E.
  assert (H : NilEmpty.uint_of_string (NilEmpty.string_of_uint (N.to_uint n))
              = Some (N.to_uint n)) by apply NilEmpty.usu.
  rewrite E in H. simpl in H. injection H as H.
  destruct n as [|p]; [discriminate|].
  symmetry in H. now apply DecimalPos.Unsigned.to_uint_nonnil in H.
Qed.


(** Parsing what [FormatUint] printed gives the number back. *)
Lemma ParseUint_FormatUint (n : N) :
  (n < two64)%N -> ParseUint (FormatUint n) = (n, true).
Proof.
  intros Hn. unfold ParseUint.
  destruct (FormatUint n) eqn:E; [now apply FormatUint_nonempty in E|].
  rewrite <- E. unfold FormatUint. rewrite NilEmpty.usu.
  rewrite DecimalN.Unsigned.of_to.
  apply N.ltb_lt in Hn. now rewrite Hn.
Qed.

(** ** The scrubber *)

(** Induction on a Go value, with the hypothesis on every value that a
    container, a pointer or a struct holds. *)
Lemma value_ind (P : value -> Prop)
  (HNil : P VNil) (HBool : forall b, P (VBool b)) (HNum : forall n, P (VNum n))
  (HStr : forall s, P (VStr s)) (HOther : P VOther)
  (HSlice : forall obj, Forall P obj -> P (VSlice obj))
  (HMap : forall obj, Forall (fun kv => P (snd kv)) obj -> P (VMap obj))
  (HPtrSlice : forall obj,
      match obj with Some l => Forall P l | None => True end ->
      P (VPtrSlice obj))
  (HPtrMap : forall obj,
      match obj with
      | Some l => Forall (fun kv => P (snd kv)) l
      | None => True
      end -> P (VPtrMap obj))
  (HFunc : forall t f, P (VFunc t f))
  (HPtr : forall ms e,
      match e with
      | Some v =>
        P v /\ match v with
               | VStruct fs _ => Forall (fun f => P (FValue f)) fs
               | _ => True
               end
      | None => True
      end -> P (VPtr ms e))
  (HStruct : forall fs ms,
      Forall (fun f => P (FValue f)) fs -> P (VStruct fs ms))
  : forall v, P v.
Proof.
  fix go 1. intros v.
  assert (all : forall l : list value, Forall P l).
  { fix all 1. intros [|x r]; constructor; [apply go | apply all]. }
  assert (allkv : forall l : list (string * value),
             Forall (fun kv => P (snd kv)) l).
  { fix allkv 1. intros [|[k x] r]; constructor; [apply go | apply allkv]. }
  destruct v as [| | | | |obj|obj|[obj|]|[obj|]| |ms [e|]|fs ms].
  - exact HNil.
  - apply HBool.
  - apply HNum.
  - apply HStr.
  - exact HOther.
  - apply HSlice, all.
  - apply HMap, allkv.
  - apply HPtrSlice, all.
  - now apply HPtrSlice.
  - apply HPtrMap, allkv.
  - now apply HPtrMap.
  - apply HFunc.
  - apply HPtr. split; [apply go|].
    destruct e as [| | | | | | | | | | |fs' ms']; try exact I.
    revert fs'. fix allf 1. intros [|f r]; constructor; [apply go | apply allf].
  - now apply HPtr.
  - apply HStruct.
    revert fs. fix allf 1. intros [|f r]; constructor; [apply go | apply allf].
Qed.

(** *** Loops whose every step returns without a change *)

Section Unchanged.
Variable rec : value -> Path -> walk -> outcome.

Lemma rangeSlice_unchanged obj :
  Forall (fun x => forall path w, rec x path w = Done w) obj ->
  forall i path w, rangeSlice rec obj i path w = Done w.
Proof.
  induction 1 as [|x r Hx _ IH]; intros i path w; simpl; [done|].
  rewrite Hx. simpl. apply IH.
Qed.

Lemma rangeMap_unchanged (obj : list (string * value)) :
  Forall (fun kv => forall path w, rec (snd kv) path w = Done w) obj ->
  forall path w, rangeMap rec obj path w = Done w.
Proof.
  induction 1 as [|[k x] r Hx _ IH]; intros path w; simpl; [done|].
  simpl in Hx. rewrite Hx. simpl. apply IH.
Qed.
End Unchanged.

Lemma pure_json_unchanged v :
  pure_json v = true -> forall path w, collectCallbacks v path w = Done w.
Proof.
  induction v as [| | | | |obj IH|obj IH| | | | |] using value_ind;
    simpl; intros Hp path w; try done.
  - apply rangeSlice_unchanged.
    rewrite forallb_forall in Hp. rewrite Forall_forall in IH.
    apply Forall_forall. intros x Hx. apply IH; [done|].
    apply Hp. now apply list_elem_of_In.
  - apply rangeMap_unchanged.
    rewrite forallb_forall in Hp. rewrite Forall_forall in IH.
    apply Forall_forall. intros x Hx. apply IH; [done|].
    apply Hp. now apply list_elem_of_In.
Qed.

(** C6: scrubbing a pure-JSON value (nil, numbers, strings, booleans,
    slices and maps of such) returns the empty callback-path map and
    leaves the registry and the sequence counter of the scrubber as they
    were. *)
Theorem C6_Scrub_pure_json (s : Scrubber) (args : value) :
  pure_json args = true ->
  Scrub s args = Done (mkWalk s ∅ []) /\
  cbmap (final (Scrub s args)) = ∅ /\
  callbacks (scr (final (Scrub s args))) = callbacks s /\
  seq (scr (final (Scrub s args))) = seq s.
Proof.
  intros Hp. unfold Scrub. rewrite (pure_json_unchanged _ Hp). done.
Qed.

Lemma C6_Scrub_pure_json_witness :
  let args := VSlice [VNum 1; VStr "hi"; VMap [("k", VSlice [VNil; VBool true])]] in
  let s := mkScrubber {[ 4%N := UserFunc 7 ]} 5 in
  pure_json args = true /\
  Scrub s args = Done (mkWalk s ∅ []) /\
  cbmap (final (Scrub s args)) = ∅ /\
  callbacks (scr (final (Scrub s args))) = callbacks s /\
  seq (scr (final (Scrub s args))) = seq s.
Proof.
  split; [reflexivity|]. apply C6_Scrub_pure_json. reflexivity.
Defined.

(** *** registerCallback *)

Lemma registerCallback_root val w :
  registerCallback val [] w = Panicked root_panic w.
Proof. reflexivity. Qed.

(** C9, as the code has it: registerCallback called with a non-empty path
    on a value that has the shape of a Function envelope with a nil
    Caller, or on a value that is neither an envelope nor a bare
    func(p *Partial), returns and leaves the scrubber (counter and
    registry) and the callback-path map as they were. *)
Theorem C9_registerCallback_skips (val : value) (path : Path) (w : walk) :
  path <> [] ->
  nil_envelope val = true \/
  (isFunction val = false /\ bare_func_partial val = false) ->
  registerCallback val path w = Done w.
Proof.
  intros Hpath H. unfold registerCallback.
  destruct path as [|e path]; [done|].
  destruct H as [H|[Hf Hb]].
  - unfold nil_envelope in H. apply andb_true_iff in H as [Hf H].
    rewrite Hf. destruct (FieldByName "Caller" val) as [cf|]; [|done].
    now destruct (FValue cf).
  - rewrite Hf. destruct val as [| | | | | | | | |[| |] f| |]; done.
Qed.

Lemma C9_registerCallback_skips_witness :
  let w := mkWalk (mkScrubber {[ 0%N := UserFunc 1 ]} 1) ∅ [] in
  [PInt 0; PStr "cb"] <> [] /\
  (nil_envelope (Function VNil) = true \/
   (isFunction (Function VNil) = false /\
    bare_func_partial (Function VNil) = false)) /\
  registerCallback (Function VNil) [PInt 0; PStr "cb"] w = Done w.
Proof.
  split; [done|]. split; [left; reflexivity|].
  apply C9_registerCallback_skips; [done|left; reflexivity].
Defined.

(** C9 as stated fails at the root: a Function envelope with a nil Caller
    handed to Scrub reaches registerCallback with the empty path, which
    panics before the Caller is looked at. *)
Lemma C9_counterexample :
  nil_envelope (Function VNil) = true /\
  Scrub NewScrubber (Function VNil)
  = Panicked root_panic (mkWalk NewScrubber ∅ []) /\
  ~ (forall val path w,
        nil_envelope val = true \/
        (isFunction val = false /\ bare_func_partial val = false) ->
        registerCallback val path w = Done w).
Proof.
  split; [reflexivity|]. split; [reflexivity|].
  intros H.
  specialize (H (Function VNil) [] (mkWalk NewScrubber ∅ [])
                (or_introl eq_refl)).
  discriminate H.
Qed.

(** *** Raw funcs and callables at the root *)

Lemma bind_not_returns o k :
  returns o = false -> returns (o >>> k) = false.
Proof. now destruct o. Qed.

Section Reaches.
Variable rec : value -> Path -> walk -> outcome.

Lemma rangeSlice_panics obj :
  Forall (fun x => reaches_raw_func x = true ->
                   forall path w, returns (rec x path w) = false) obj ->
  existsb reaches_raw_func obj = true ->
  forall i path w, returns (rangeSlice rec obj i path w) = false.
Proof.
  induction 1 as [|x r Hx _ IH]; simpl; [done|].
  intros Hex i path w. destruct (rec x (path ++ [PInt i]) w) eqn:E; [|done].
  simpl. destruct (reaches_raw_func x) eqn:Ex.
  - specialize (Hx eq_refl (path ++ [PInt i]) w). now rewrite E in Hx.
  - now apply IH.
Qed.

Lemma rangeMap_panics (obj : list (string * value)) :
  Forall (fun kv => reaches_raw_func (snd kv) = true ->
                    forall path w, returns (rec (snd kv) path w) = false) obj ->
  existsb (fun kv => reaches_raw_func (snd kv)) obj = true ->
  forall path w, returns (rangeMap rec obj path w) = false.
Proof.
  induction 1 as [|[k x] r Hx _ IH]; simpl; [done|].
  intros Hex path w. destruct (rec x (path ++ [PStr k]) w) eqn:E; [|done].
  simpl. simpl in Hx. destruct (reaches_raw_func x) eqn:Ex.
  - specialize (Hx eq_refl (path ++ [PStr k]) w). now rewrite E in Hx.
  - now apply IH.
Qed.

Lemma rangeFields_panics fs :
  Forall (fun f => reaches_raw_func (FValue f) = true ->
                   forall path w, returns (rec (FValue f) path w) = false) fs ->
  existsb (fun f => walked f && reaches_raw_func (FValue f)) fs = true ->
  forall path w, returns (rangeFields rec fs path w) = false.
Proof.
  induction 1 as [|f r Hf _ IH]; simpl; [done|].
  intros Hex path w. destruct (fieldStep rec f path w) eqn:E; [|done].
  simpl. destruct (walked f && reaches_raw_func (FValue f)) eqn:Ef.
  - apply andb_true_iff in Ef as [Hw Hr].
    unfold walked in Hw. apply andb_true_iff in Hw as [Hw H3].
    apply andb_true_iff in Hw as [H1 H2].
    unfold fieldStep in E. rewrite H1 in E. simpl in E.
    apply negb_true_iff in H2, H3. rewrite H2, H3 in E.
    destruct (Anonymous f).
    + specialize (Hf Hr path w). now rewrite E in Hf.
    + specialize (Hf Hr (path ++
        [PStr (if negb (String.eqb (TagJson f) "") then TagJson f else Name f)]) w).
      now rewrite E in Hf.
  - now apply IH.
Qed.
End Reaches.

Lemma reaches_raw_func_panics v :
  reaches_raw_func v = true ->
  forall path w, returns (collectCallbacks v path w) = false.
Proof.
  induction v as [| | | | |obj IH|obj IH|[obj|] IH|[obj|] IH|t f|ms [e|] IH|fs ms IH]
    using value_ind; intros Hr path w;
    cbn [collectCallbacks reaches_raw_func] in *; try done.
  - now apply rangeSlice_panics.
  - now apply rangeMap_panics.
  - now apply rangeSlice_panics.
  - now apply rangeMap_panics.
  - destruct e as [| | | | | | | | | | |fs' ms']; try done.
    destruct IH as [_ IH].
    apply andb_true_iff in Hr as [Hn Hr]. apply negb_true_iff in Hn.
    rewrite Hn. apply bind_not_returns. now apply rangeFields_panics.
  - apply andb_true_iff in Hr as [Hn Hr]. apply negb_true_iff in Hn.
    rewrite Hn. apply bind_not_returns. now apply rangeFields_panics.
Qed.

Lemma isFunction_struct v :
  isFunction v = true -> exists fs ms, v = VStruct fs ms.
Proof. destruct v; try done. eauto. Qed.

(** C4, as the code has it: Scrub has no error result, it panics.
    (a) A raw func met anywhere panics with "cannot marshal func, use
    Callback() to wrap it" and is not registered: the state is the one
    the walk had on reaching it.  (b) A Function envelope at the root, or
    behind a pointer at the root, panics with "root element must be a
    struct or slice" and registers nothing.  (c) A walk that has a raw
    func on its way does not return. *)
Theorem C4_Scrub_panics (s : Scrubber) (obj : value) :
  (forall t f path w,
      collectCallbacks (VFunc t f) path w = Panicked func_panic w) /\
  (isFunction obj = true ->
   Scrub s obj = Panicked root_panic (mkWalk s ∅ []) /\
   forall ms,
     Scrub s (VPtr ms (Some obj)) = Panicked root_panic (mkWalk s ∅ [])) /\
  (reaches_raw_func obj = true -> returns (Scrub s obj) = false).
Proof.
  split; [reflexivity|]. split.
  - intros Hf. destruct (isFunction_struct _ Hf) as (fs & ms & ->).
    unfold Scrub. cbn [collectCallbacks]. rewrite Hf. done.
  - intros Hr. now apply reaches_raw_func_panics.
Qed.

Lemma C4_Scrub_panics_witness :
  let s := mkScrubber {[ 0%N := UserFunc 1 ]} 1 in
  let env := Callback (UserFunc 2) in
  let tree := VSlice [VMap [("onMessage", VFunc FuncPartial (UserFunc 3))]] in
  isFunction env = true /\ reaches_raw_func tree = true /\
  Scrub s env = Panicked root_panic (mkWalk s ∅ []) /\
  returns (Scrub s tree) = false.
Proof.
  intros s env tree.
  destruct (C4_Scrub_panics s env) as (_ & H2 & _).
  destruct (C4_Scrub_panics s tree) as (_ & _ & H3).
  split; [reflexivity|]. split; [reflexivity|].
  split; [apply H2; reflexivity | apply H3; reflexivity].
Defined.

(** C4 as stated fails: on a bare func at the root, and on a tree that
    holds a raw func, Scrub panics instead of returning; and the callback
    registered before the raw func was met stays in the registry. *)
Lemma C4_counterexample :
  Scrub NewScrubber (VFunc FuncPartial (UserFunc 0))
  = Panicked func_panic (mkWalk NewScrubber ∅ []) /\
  returns (Scrub NewScrubber (Callback (UserFunc 0))) = false /\
  Scrub NewScrubber
        (VSlice [Callback (UserFunc 1); VFunc FuncOther (UserFunc 2)])
  = Panicked func_panic
      (mkWalk (mkScrubber {[ 0%N := UserFunc 1 ]} 1)
              {[ "0" := [PInt 0] ]} [0%N]) /\
  ~ (forall s obj, reaches_raw_func obj = true -> returns (Scrub s obj) = true).
Proof.
  split; [reflexivity|]. split; [reflexivity|]. split; [reflexivity|].
  intros H.
  specialize (H NewScrubber (VFunc FuncPartial (UserFunc 0)) eq_refl).
  discriminate H.
Qed.

(** *** What a walk does to its state *)

Lemma final_bind_rel (R : walk -> walk -> Prop) o k w :
  (forall a b c, R a b -> R b c -> R a c) ->
  R w (final o) -> (forall w1, R w1 (final (k w1))) -> R w (final (o >>> k)).
Proof. intros Ht Ho Hk. destruct o; simpl in *; eauto. Qed.

Section WalkInvariant.
(** [Q] holds of the paths the walk is at, [R] relates the state before
    to the state after. *)
Variable Q : Path -> Prop.
Variable R : walk -> walk -> Prop.
Hypothesis Q_app : forall path e, Q path -> Q (path ++ [e]).
Hypothesis R_refl : forall w, R w w.
Hypothesis R_trans : forall a b c, R a b -> R b c -> R a c.
Hypothesis R_store :
  forall cb path w, Q path -> path <> [] -> R w (store cb path w).

Lemma registerCallback_rel val path w :
  Q path -> R w (final (registerCallback val path w)).
Proof.
  intros Hq. unfold registerCallback.
  destruct path as [|e path]; [apply R_refl|].
  destruct (isFunction val).
  - destruct (FieldByName "Caller" val) as [cf|]; [|apply R_refl].
    destruct (FValue cf) as [| | | | | | | | |[| |] f| |];
      simpl; auto.
  - destruct val as [| | | | | | | | |[| |] f| |]; simpl; auto.
Qed.

Lemma collectMethods_rel ms path w :
  Q path -> R w (final (collectMethods ms path w)).
Proof.
  intros Hq. revert w. induction ms as [|m ms IH]; intros w; simpl; [auto|].
  apply final_bind_rel; [done| |done].
  destruct (String.eqb (MPkgPath m) ""); simpl; [|auto].
  apply registerCallback_rel. auto.
Qed.

Section Loops.
Variable rec : value -> Path -> walk -> outcome.
Let good (x : value) : Prop :=
  forall path w, Q path -> R w (final (rec x path w)).

Lemma rangeSlice_rel obj :
  Forall good obj ->
  forall i path w, (forall j, Q (path ++ [PInt j])) ->
                   R w (final (rangeSlice rec obj i path w)).
Proof.
  induction 1 as [|x r Hx _ IH]; intros i path w Hq; simpl; [auto|].
  apply final_bind_rel; [done| |]; auto.
Qed.

Lemma rangeMap_rel (obj : list (string * value)) :
  Forall (fun kv => good (snd kv)) obj ->
  forall path w, (forall k, Q (path ++ [PStr k])) ->
                 R w (final (rangeMap rec obj path w)).
Proof.
  induction 1 as [|[k x] r Hx _ IH]; intros path w Hq; simpl; [auto|].
  apply final_bind_rel; [done| |]; auto.
Qed.

Lemma rangeFields_rel fs :
  Forall (fun f => good (FValue f)) fs ->
  forall path w, Q path -> R w (final (rangeFields rec fs path w)).
Proof.
  induction 1 as [|f r Hf _ IH]; intros path w Hq; simpl; [auto|].
  apply final_bind_rel; [done| |]; auto.
  unfold fieldStep.
  repeat match goal with |- context [if ?b then _ else _] => destruct b end;
    simpl; auto.
Qed.
End Loops.

Lemma collectCallbacks_rel v :
  forall path w, Q path -> R w (final (collectCallbacks v path w)).
Proof.
  induction v as [| | | | |obj IH|obj IH|[obj|] IH|[obj|] IH|t f|ms [e|] IH|fs ms IH]
    using value_ind; intros path w Hq; cbn [collectCallbacks];
    try apply R_refl.
  - apply rangeSlice_rel; auto.
  - apply rangeMap_rel; auto.
  - apply rangeSlice_rel; auto.
  - apply rangeMap_rel; auto.
  - destruct (isFunction e); [now apply registerCallback_rel|].
    destruct e as [| | | | | | | | | | |fs' ms']; simpl; auto.
    destruct IH as [_ IH].
    apply final_bind_rel; [done| |].
    + apply rangeFields_rel; auto.
    + intros w1. now apply collectMethods_rel.
  - destruct (isFunction (VStruct fs ms)); [now apply registerCallback_rel|].
    apply final_bind_rel; [done| |].
    + apply rangeFields_rel; auto.
    + intros w1. now apply collectMethods_rel.
Qed.
End WalkInvariant.

(** *** The sequence counter *)

Lemma two64_pos : (0 < two64)%N.
Proof. reflexivity. Qed.

Lemma sub1_add1 (n : N) : (n < two64)%N -> sub1 (add1 n) = n.
Proof.
  intros Hn. unfold sub1, add1.
  destruct (decide (n + 1 = two64)%N) as [E|E].
  - rewrite E, N.Div0.mod_same. rewrite N.mod_small; unfold two64 in *; lia.
  - rewrite (N.mod_small (n + 1)) by lia.
    replace (n + 1 + two64 - 1)%N with (n + 1 * two64)%N by lia.
    rewrite N.Div0.mod_add. now apply N.mod_small.
Qed.

Lemma ids_from_app a k1 k2 :
  ids_from a (k1 + k2)
  = ids_from a k1 ++ ids_from ((a + N.of_nat k1) mod two64)%N k2.
Proof.
  unfold ids_from. rewrite seq_app, fmap_app. f_equal.
  replace (0 + k1)%nat with (k1 + 0)%nat by lia.
  rewrite <- (fmap_add_seq k1 0 k2), <- list_fmap_compose.
  apply list_fmap_ext. intros _ i _. simpl.
  rewrite N.Div0.add_mod_idemp_l. f_equal. lia.
Qed.

Lemma allocates_refl w : allocates w w.
Proof.
  intros Hn. exists 0%nat. unfold ids_from. simpl.
  rewrite app_nil_r, N.add_0_r. split; [done|].
  symmetry. now apply N.mod_small.
Qed.

Lemma allocates_store cb path w : allocates w (store cb path w).
Proof.
  intros Hn. exists 1%nat. unfold store, ids_from. simpl.
  rewrite sub1_add1 by done. rewrite N.add_0_r, N.mod_small by done.
  done.
Qed.

Lemma allocates_trans a b c : allocates a b -> allocates b c -> allocates a c.
Proof.
  intros Hab Hbc Hn. destruct (Hab Hn) as (k1 & E1 & S1).
  assert (Hb : (seq (scr b) < two64)%N).
  { rewrite S1. apply N.mod_lt. unfold two64. lia. }
  destruct (Hbc Hb) as (k2 & E2 & S2).
  exists (k1 + k2)%nat. split.
  - rewrite E2, E1, <- app_assoc, ids_from_app. now rewrite S1.
  - rewrite S2, S1, N.Div0.add_mod_idemp_l. f_equal. lia.
Qed.

Lemma collectCallbacks_allocates v path w :
  allocates w (final (collectCallbacks v path w)).
Proof.
  apply (collectCallbacks_rel (fun _ => True) allocates); auto.
  - apply allocates_refl.
  - apply allocates_trans.
  - intros. apply allocates_store.
Qed.

Lemma ScrubSession_ids calls : forall s,
  (seq s < two64)%N ->
  exists k : nat,
    snd (ScrubSession s calls) = ids_from (seq s) k /\
    seq (fst (ScrubSession s calls)) = ((seq s + N.of_nat k) mod two64)%N.
Proof.
  induction calls as [|obj rest IH]; intros s Hs; simpl.
  - exists 0%nat. rewrite N.add_0_r, N.mod_small by done. done.
  - destruct (collectCallbacks_allocates obj [] (mkWalk s ∅ []) Hs)
      as (k1 & E1 & S1).
    fold (Scrub s obj) in E1, S1. simpl in E1, S1.
    assert (Hb : (seq (scr (final (Scrub s obj))) < two64)%N).
    { rewrite S1. apply N.mod_lt. unfold two64. lia. }
    destruct (IH _ Hb) as (k2 & E2 & S2).
    destruct (ScrubSession (scr (final (Scrub s obj))) rest) as [s' ids].
    simpl in *. exists (k1 + k2)%nat. split.
    + rewrite E1, E2, ids_from_app. now rewrite S1.
    + rewrite S2, S1, N.Div0.add_mod_idemp_l. f_equal. lia.
Qed.

Lemma ids_from_small k :
  (N.of_nat k <= two64)%N -> ids_from 0 k = N.of_nat <$> List.seq 0 k.
Proof.
  intros Hk. unfold ids_from. apply list_fmap_ext. intros j i Hi. simpl.
  apply lookup_seq in Hi as [-> Hi]. apply N.mod_small. lia.
Qed.

Lemma seq_StronglySorted a k : StronglySorted lt (List.seq a k).
Proof.
  revert a. induction k as [|k IH]; intros a; simpl; constructor; [apply IH|].
  apply Forall_forall. intros x Hx. apply elem_of_seq in Hx. lia.
Qed.

(** C7: on one scrubber, started by NewScrubber, the IDs that any
    sequence of Scrub calls allocates are 0, 1, 2, ... in the order of
    allocation, hence strictly increasing and pairwise distinct, and the
    counter stands after the last ID; each registration takes the value
    of the counter as ID and increments the counter.  The counter is a
    uint64: the statement is for sessions of at most 2^64 registrations. *)
Theorem C7_ids_increasing (calls : list value) :
  (N.of_nat (length (snd (ScrubSession NewScrubber calls))) <= two64)%N ->
  let ids := snd (ScrubSession NewScrubber calls) in
  ids = N.of_nat <$> List.seq 0 (length ids) /\
  StronglySorted N.lt ids /\ NoDup ids /\
  seq (fst (ScrubSession NewScrubber calls))
  = (N.of_nat (length ids) mod two64)%N /\
  (forall cb path w,
      (seq (scr w) < two64)%N ->
      allocated (store cb path w) = allocated w ++ [seq (scr w)] /\
      callbacks (scr (store cb path w)) !! seq (scr w) = Some cb /\
      seq (scr (store cb path w)) = ((seq (scr w) + 1) mod two64)%N).
Proof.
  intros Hlen ids.
  destruct (ScrubSession_ids calls NewScrubber two64_pos) as (k & E & S).
  fold ids in E. simpl in E, S.
  assert (Hk : length ids = k).
  { rewrite E. unfold ids_from. now rewrite length_fmap, length_seq. }
  fold ids in Hlen. rewrite Hk in *.
  rewrite ids_from_small in E by done.
  split; [done|]. rewrite E. split; [|split; [|split]].
  - apply (StronglySorted_fmap N.of_nat lt N.lt); [|apply seq_StronglySorted].
    intros x y Hxy. lia.
  - apply NoDup_fmap; [apply _|apply NoDup_seq].
  - done.
  - intros cb path w Hw. unfold store. simpl.
    rewrite sub1_add1 by done. rewrite lookup_insert_eq. done.
Qed.

Lemma C7_ids_increasing_witness :
  let calls :=
    [VSlice [Callback (UserFunc 1); VNum 3; Callback (UserFunc 2)];
     VSlice [VMap [("a", Callback (UserFunc 3))]]] in
  snd (ScrubSession NewScrubber calls) = [0; 1; 2]%N /\
  StronglySorted N.lt (snd (ScrubSession NewScrubber calls)) /\
  seq (fst (ScrubSession NewScrubber calls)) = 3%N.
Proof.
  intros calls.
  assert (H : (N.of_nat (length (snd (ScrubSession NewScrubber calls)))
               <= two64)%N) by (vm_compute; discriminate).
  destruct (C7_ids_increasing calls H) as (E & Hs & _ & Hq & _).
  split; [exact E|]. split; [exact Hs|exact Hq].
Defined.

(** ** The client: sending *)

Import Wire Kite.

Section Sending.
Context `{Env}.

Lemma set_scrubber_same (c : Client) : set_scrubber (scrubber c) c = c.
Proof. now destruct c. Qed.

Lemma removeCallbacks_empty (c : Client) : removeCallbacks c ∅ = c.
Proof.
  unfold removeCallbacks. rewrite map_to_list_empty. simpl.
  apply set_scrubber_same.
Qed.

(** A failure of json.Marshal on the arguments: the deferred function
    sees the nil map of [return nil, err] and removes nothing. *)
Lemma marshalAndSend_arguments_error c method args w e :
  Scrub (scrubber c) (VSlice args) = Done w ->
  json_Marshal args = Err e ->
  marshalAndSend c method args
  = (set_scrubber (scr w) c, Return (∅, Some e)).
Proof.
  intros Hs Hm. unfold marshalAndSend. rewrite Hs, Hm.
  unfold marshalAndSend_deferred. now rewrite removeCallbacks_empty.
Qed.

(** The same for a failure of json.Marshal on the message. *)
Lemma marshalAndSend_message_error c method args w raw e :
  Scrub (scrubber c) (VSlice args) = Done w ->
  json_Marshal args = Ok raw ->
  json_MarshalMessage (mkMessage method raw (cbmap w)) = Err e ->
  marshalAndSend c method args
  = (set_scrubber (scr w) c, Return (∅, Some e)).
Proof.
  intros Hs Hm Hmm. unfold marshalAndSend. rewrite Hs, Hm, Hmm.
  unfold marshalAndSend_deferred. now rewrite removeCallbacks_empty.
Qed.

(** A failure of sendData: the callbacks of the map are removed. *)
Lemma marshalAndSend_send_error c method args w raw data e :
  Scrub (scrubber c) (VSlice args) = Done w ->
  json_Marshal args = Ok raw ->
  json_MarshalMessage (mkMessage method raw (cbmap w)) = Ok data ->
  snd (sendData (set_scrubber (scr w) c) data) = Some e ->
  marshalAndSend c method args
  = (removeCallbacks (set_scrubber (scr w) c) (cbmap w),
     Return (cbmap w, Some e)).
Proof.
  intros Hs Hm Hmm Hd. unfold marshalAndSend. rewrite Hs, Hm, Hmm.
  unfold sendData in *.
  destruct (conn (set_scrubber (scr w) c)) as [cn|]; simpl in *.
  - destruct (failure cn); simpl in *; [|done].
    injection Hd as ->. done.
  - injection Hd as <-. done.
Qed.

(** No failure: the frame is written and nothing is removed. *)
Lemma marshalAndSend_sent c method args w raw data cn :
  Scrub (scrubber c) (VSlice args) = Done w ->
  json_Marshal args = Ok raw ->
  json_MarshalMessage (mkMessage method raw (cbmap w)) = Ok data ->
  conn c = Some cn -> failure cn = None ->
  marshalAndSend c method args
  = (set_conn (Some (mkConn (RemoteAddr_of cn) None (wire cn ++ [data])))
              (set_scrubber (scr w) c),
     Return (cbmap w, None)).
Proof.
  intros Hs Hm Hmm Hc Hf. unfold marshalAndSend. rewrite Hs, Hm, Hmm.
  unfold sendData. simpl. rewrite Hc, Hf. done.
Qed.

Lemma marshalAndSend_panic c method args p w :
  Scrub (scrubber c) (VSlice args) = Panicked p w ->
  marshalAndSend c method args = (set_scrubber (scr w) c, Panic p).
Proof. intros Hs. unfold marshalAndSend. now rewrite Hs. Qed.

(** What removeCallbacks leaves: no callback under the number that a key
    of the map parses to. *)
Lemma removeCallbacks_removed c (callbacks : gmap string Path) sid :
  is_Some (callbacks !! sid) ->
  GetCallback (scrubber (removeCallbacks c callbacks)) (fst (ParseUint sid))
  = None.
Proof.
  intros [path Hp]. apply elem_of_map_to_list in Hp.
  unfold removeCallbacks, GetCallback. simpl.
  induction (map_to_list callbacks) as [|[k q] l IH]; [by inversion Hp|].
  simpl. apply elem_of_cons in Hp as [E|Hp].
  - injection E as <- <-. apply lookup_delete_eq.
  - destruct (decide (fst (ParseUint k) = fst (ParseUint sid))) as [E|E].
    + rewrite E. apply lookup_delete_eq.
    + rewrite lookup_delete_ne by done. now apply IH.
Qed.

End Sending.

(** The keys of the callback-path map are the allocated IDs, printed. *)
Lemma Scrub_tracks s obj id :
  id ∈ allocated (final (Scrub s obj)) ->
  (id < two64)%N /\ is_Some (cbmap (final (Scrub s obj)) !! FormatUint id).
Proof.
  unfold Scrub.
  pose (R := fun w w' : walk =>
    (forall i, i ∈ allocated w ->
               (i < two64)%N /\ is_Some (cbmap w !! FormatUint i)) ->
    (forall i, i ∈ allocated w' ->
               (i < two64)%N /\ is_Some (cbmap w' !! FormatUint i))).
  assert (HR : R (mkWalk s ∅ [])
                 (final (collectCallbacks obj [] (mkWalk s ∅ [])))).
  { apply (collectCallbacks_rel (fun _ => True) R); unfold R; auto.
    intros cb path w _ _ Hw i Hi. unfold store in *. simpl in *.
    apply elem_of_app in Hi as [Hi|Hi].
    - destruct (Hw i Hi) as [Hlt Hk]. split; [done|].
      destruct (decide (FormatUint (sub1 (add1 (seq (scr w)))) = FormatUint i))
        as [E|E].
      + rewrite E, lookup_insert_eq. eauto.
      + now rewrite lookup_insert_ne.
    - apply list_elem_of_singleton in Hi as ->. split.
      + unfold sub1. apply N.mod_lt. unfold two64. lia.
      + rewrite lookup_insert_eq. eauto. }
  intros Hid. apply HR; [|done]. simpl. intros i Hi. inversion Hi.
Qed.

Section SendingFailures.
Context `{Env}.

(** After a failure of sendData, no callback that this call registered
    is left in the registry. *)
Lemma marshalAndSend_send_error_removes c method args w raw data e id :
  Scrub (scrubber c) (VSlice args) = Done w ->
  json_Marshal args = Ok raw ->
  json_MarshalMessage (mkMessage method raw (cbmap w)) = Ok data ->
  snd (sendData (set_scrubber (scr w) c) data) = Some e ->
  id ∈ allocated w ->
  GetCallback (scrubber (fst (marshalAndSend c method args))) id = None.
Proof.
  intros Hs Hm Hmm Hd Hid.
  rewrite (marshalAndSend_send_error _ _ _ _ _ _ _ Hs Hm Hmm Hd). simpl.
  pose proof (Scrub_tracks (scrubber c) (VSlice args) id) as Ht.
  rewrite Hs in Ht. simpl in Ht. destruct (Ht Hid) as [Hlt Hk].
  pose proof (removeCallbacks_removed (set_scrubber (scr w) c) (cbmap w)
                                      (FormatUint id) Hk) as Hr.
  now rewrite ParseUint_FormatUint in Hr.
Qed.

End SendingFailures.

(** C5: the code against the claim, at a call whose arguments do not
    serialize.  [Tell("echo", ch)] with a channel [ch] on a connected
    client: the scrubber registers the response callback under ID 0,
    json.Marshal refuses the arguments, marshalAndSend returns the error,
    and the response callback is still in the registry: the deferred
    cleanup was handed the nil map of [return nil, err]. *)
Theorem C5_serialization_error_keeps_callbacks :
  let args := wrapMethodArgs demo_kite demo_dialled [VOther]
                             (makeResponseCallback "echo") in
  let r := marshalAndSend demo_dialled (MethodString "echo") args in
  snd r = Return (∅, Some "json: unsupported type") /\
  GetCallback (scrubber demo_dialled) 0 = None /\
  GetCallback (scrubber (fst r)) 0 = Some (ResponseFunc "echo") /\
  size (callbacks (scrubber (fst r))) = 1.
Proof. vm_compute. done. Qed.

(** The sibling path: the same call on a connection whose write fails
    removes the response callback again. *)
Lemma C5_send_error_removes_callbacks :
  let c := demo_client (Some (mkConn "" (Some "broken pipe") [])) in
  let args := wrapMethodArgs demo_kite c [VNum 1]
                             (makeResponseCallback "echo") in
  let r := marshalAndSend c (MethodString "echo") args in
  snd r = Return ({[ "0" := [PInt 0; PStr "responseCallback"] ]},
                  Some "broken pipe") /\
  size (callbacks (scrubber (fst r))) = 0.
Proof. vm_compute. done. Qed.

(** ** The client: Go and Tell *)

Section NotConnected.
Context `{Env}.

(** C10, as the code has it: a Tell or Go made while the connection
    handle is nil, with arguments that the scrubber walks without a panic
    and that serialize, fails in sendData with "not connected"; the
    caller finds on the response channel one response, whose error is the
    sendError with that message; no waiter is started, no panic is
    raised, and the client is still not connected. *)
Theorem C10_not_connected (k : LocalKite) (c : Client) (method : string)
  (timeout : Z) (args : list value) (w : walk) (raw : tree float64)
  (data : frame) :
  conn c = None ->
  Scrub (scrubber c)
        (VSlice (wrapMethodArgs k c args (makeResponseCallback method)))
  = Done w ->
  json_Marshal (wrapMethodArgs k c args (makeResponseCallback method))
  = Ok raw ->
  json_MarshalMessage (mkMessage (MethodString method) raw (cbmap w))
  = Ok data ->
  let sendError :=
    mkResponse None (Some (mkError "sendError" "not connected")) in
  exists c',
    GoWithTimeout k c method timeout args
    = (c', Return (mkCall (chan_send sendError make) make None)) /\
    conn c' = None /\
    forall ev,
      TellWithTimeout k c method timeout args ev = Some (c', Return sendError).
Proof.
  intros Hc Hs Hm Hmm sendError.
  assert (Hd : snd (sendData (set_scrubber (scr w) c) data)
               = Some "not connected").
  { unfold sendData. simpl. now rewrite Hc. }
  pose proof (marshalAndSend_send_error _ _ _ _ _ _ _ Hs Hm Hmm Hd) as Hms.
  assert (Hgo : GoWithTimeout k c method timeout args
          = (removeCallbacks (set_scrubber (scr w) c) (cbmap w),
             Return (mkCall (chan_send sendError make) make None))).
  { unfold GoWithTimeout, sendMethod. rewrite Hms. done. }
  eexists. split; [exact Hgo|]. split; [done|].
  intros ev. unfold TellWithTimeout. rewrite Hgo. done.
Qed.

End NotConnected.

Lemma C10_not_connected_witness :
  let c := demo_client None in
  conn c = None /\
  exists c',
    GoWithTimeout demo_kite c "echo" 0 [VStr "hi"]
    = (c', Return (mkCall
                     (chan_send (mkResponse None
                        (Some (mkError "sendError" "not connected"))) make)
                     make None)) /\
    conn c' = None /\
    forall ev,
      TellWithTimeout demo_kite c "echo" 0 [VStr "hi"] ev
      = Some (c', Return (mkResponse None
                            (Some (mkError "sendError" "not connected")))).
Proof.
  split; [reflexivity|].
  eapply (C10_not_connected demo_kite (demo_client None) "echo" 0 [VStr "hi"]);
    [reflexivity | vm_compute; reflexivity | vm_compute; reflexivity
    | vm_compute; reflexivity].
Defined.

(** C10 as stated fails: with a raw func among the arguments the call
    panics in the scrubber before the connection is looked at; and with
    arguments that do not serialize the sendError carries the text of the
    serializer, not "not connected". *)
Lemma C10_counterexample :
  let c := demo_client None in
  conn c = None /\
  snd (Go demo_kite c "echo" [VFunc FuncOther (UserFunc 1)])
  = Panic func_panic /\
  (forall ev, exists c',
      Tell demo_kite c "echo" [VOther] ev
      = Some (c', Return (mkResponse None
                 (Some (mkError "sendError" "json: unsupported type"))))).
Proof.
  split; [reflexivity|]. split; [vm_compute; reflexivity|].
  intros ev. eexists. unfold Tell, TellWithTimeout.
  destruct ev; vm_compute; reflexivity.
Qed.

(** *** The remove-callback channel *)

(** What sendCallbackID does with a map: it closes the channel when no
    entry has the path ["0", "responseCallback"] made of two strings, and
    else sends the number of one such entry. *)
Lemma sendCallbackID_range_spec (entries : list (string * Path)) (ch : chan N) :
  (Forall (fun e => snd e <> [PStr "0"; PStr "responseCallback"]) entries /\
   sendCallbackID_range entries ch = chan_close ch) \/
  (exists id, (id, [PStr "0"; PStr "responseCallback"]) ∈ entries /\
              sendCallbackID_range entries ch
              = chan_send (fst (ParseUint id)) ch).
Proof.
  induction entries as [|[id path] rest IH]; simpl.
  - left. split; [constructor|done].
  - assert (Hskip : path <> [PStr "0"; PStr "responseCallback"] ->
      (Forall (fun e => snd e <> [PStr "0"; PStr "responseCallback"])
              ((id, path) :: rest) /\
       sendCallbackID_range rest ch = chan_close ch) \/
      (exists id', (id', [PStr "0"; PStr "responseCallback"])
                   ∈ (id, path) :: rest /\
                   sendCallbackID_range rest ch
                   = chan_send (fst (ParseUint id')) ch)).
    { intros Hne. destruct IH as [[Hf Hc]|(id' & Hin & Hs)].
      - left. split; [constructor|]; done.
      - right. exists id'. split; [apply elem_of_cons; now right|done]. }
    destruct path as [|[i|p0] [|[j|p1] [|e path]]]; try (apply Hskip; done).
    destruct (String.eqb p0 "0") eqn:E0; simpl.
    + destruct (String.eqb p1 "responseCallback") eqn:E1; simpl.
      * apply String.eqb_eq in E0 as ->. apply String.eqb_eq in E1 as ->.
        right. exists id. split; [apply elem_of_cons; now left|done].
      * apply Hskip. apply String.eqb_neq in E1. congruence.
    + apply Hskip. apply String.eqb_neq in E0. congruence.
Qed.

(** A map all of whose paths start with a slice index has no such
    entry: the channel is closed. *)
Lemma sendCallbackID_closes (callbacks : gmap string Path) (ch : chan N) :
  (forall k p, callbacks !! k = Some p -> exists i rest, p = PInt i :: rest) ->
  sendCallbackID callbacks ch = chan_close ch.
Proof.
  intros Hp. unfold sendCallbackID.
  destruct (sendCallbackID_range_spec (map_to_list callbacks) ch)
    as [[_ Hc]|(id & Hin & _)]; [done|].
  apply elem_of_map_to_list in Hin.
  destruct (Hp _ _ Hin) as (i & rest & E). discriminate E.
Qed.

(** Scrub on a slice: every path of the map starts with the index of the
    element, an int. *)
Lemma Scrub_slice_paths s obj k p :
  cbmap (final (Scrub s (VSlice obj))) !! k = Some p ->
  exists i rest, p = PInt i :: rest.
Proof.
  unfold Scrub. cbn [collectCallbacks].
  pose (Q := fun path : Path => exists i rest, path = PInt i :: rest).
  pose (R := fun w w' : walk =>
    (forall k p, cbmap w !! k = Some p -> Q p) ->
    (forall k p, cbmap w' !! k = Some p -> Q p)).
  assert (Qapp : forall path e, Q path -> Q (path ++ [e])).
  { intros path e (i & rest & ->). now exists i, (rest ++ [e]). }
  assert (Rstore : forall cb path w, Q path -> path <> [] ->
                                     R w (store cb path w)).
  { intros cb path w Hq _ Hw k' p'. unfold store. simpl.
    destruct (decide (FormatUint (sub1 (add1 (seq (scr w)))) = k')) as [<-|E].
    - rewrite lookup_insert_eq. now intros [= <-].
    - rewrite lookup_insert_ne by done. apply Hw. }
  assert (Rrefl : forall w, R w w) by (unfold R; auto).
  assert (Rtrans : forall a b c, R a b -> R b c -> R a c).
  { intros a b c Hab Hbc Ha. exact (Hbc (Hab Ha)). }
  assert (HR : R (mkWalk s ∅ [])
    (final (rangeSlice collectCallbacks obj 0 [] (mkWalk s ∅ [])))).
  { apply (rangeSlice_rel Q R Rrefl Rtrans).
    - apply Forall_forall. intros x _ path w Hq.
      now apply (collectCallbacks_rel Q R Qapp Rrefl Rtrans Rstore).
    - intros j. now exists j, []. }
  intros Hk. apply (HR (fun k p Hkp => match lookup_empty_Some k p Hkp with end) k p Hk).
Qed.

Section Timeout.
Context `{Env}.

Lemma marshalAndSend_returned c method args c' callbacks :
  marshalAndSend c method args = (c', Return (callbacks, None)) ->
  exists w, Scrub (scrubber c) (VSlice args) = Done w /\ callbacks = cbmap w.
Proof.
  unfold marshalAndSend.
  destruct (Scrub (scrubber c) (VSlice args)) as [w|p w] eqn:Hs; [|done].
  intros E. exists w. split; [done|].
  destruct (json_Marshal args) as [raw|e]; [|by inversion E].
  destruct (json_MarshalMessage _) as [data|e]; [|by inversion E].
  destruct (sendData _ data) as [c1 [e|]]; by inversion E.
Qed.

(** The defect behind C1, for every call: the scrubber walks the
    arguments as a slice, so the path of the response callback starts
    with the int 0, not with the string "0"; sendCallbackID finds no
    entry and closes the channel; the waiter that times out receives
    [ok == false] and leaves the registry as it is. *)
Lemma timeout_removes_nothing k c method timeout args c1 cl t :
  GoWithTimeout k c method timeout args = (c1, Return cl) ->
  waiter_timeout cl = Some t ->
  removeCallback cl = chan_close make /\
  exists cl', waiter c1 method cl TimeAfter = Some (c1, cl').
Proof.
  unfold GoWithTimeout, sendMethod.
  destruct (marshalAndSend c (MethodString method) _)
    as [c2 [[callbacks [e|]]|p]] eqn:E; intros Hgo Ht;
    [injection Hgo as <- <-; done | injection Hgo as <- <- | done].
  apply marshalAndSend_returned in E as (w & Hs & ->).
  assert (Hc : sendCallbackID (cbmap w) make = chan_close make).
  { apply sendCallbackID_closes. intros key p Hp.
    apply (Scrub_slice_paths (scrubber c)
             (wrapMethodArgs k c args (makeResponseCallback method)) key).
    now rewrite Hs. }
  split; [done|]. unfold waiter. simpl. rewrite Hc. simpl. eauto.
Qed.

End Timeout.

(** C1: the code against the claim, at the timeout scenario.  A connected
    client calls "slow" with a timeout of 100 and no arguments, and the
    timeout elapses before a reply.  The scrubber recorded the response
    callback under ID 0 with the path [0, "responseCallback"] whose first
    element is an int; sendCallbackID, which looks for the string "0",
    closed the remove-callback channel; the caller gets the timeout
    error, and the response callback is still registered: the registry
    holds one entry more than before the call. *)
Theorem C1_timeout_keeps_response_callback :
  let baseline := size (callbacks (scrubber demo_dialled)) in
  (exists c cl,
      GoWithTimeout demo_kite demo_dialled "slow" 100 [] = (c, Return cl) /\
      (exists fr, (wire <$> conn c) = Some [fr] /\
                  Callbacks fr = {[ "0" := [PInt 0; PStr "responseCallback"] ]}) /\
      removeCallback cl = chan_close make) /\
  (exists c r,
      TellWithTimeout demo_kite demo_dialled "slow" 100 [] TimeAfter
      = Some (c, Return r) /\
      Error_Type <$> Err_of r = Some "timeout" /\
      GetCallback (scrubber c) 0 = Some (ResponseFunc "slow") /\
      size (callbacks (scrubber c)) = baseline + 1).
Proof.
  split.
  - eexists _, _. split; [vm_compute; reflexivity|].
    split; [|reflexivity]. eexists. split; vm_compute; reflexivity.
  - eexists _, _. split; [vm_compute; reflexivity|]. vm_compute. done.
Qed.

(** ** The message: callback positions *)

Section Positions.
Context {F : Type}.
Implicit Types (t new : tree F) (m : list (string * tree F)) (p q : Path).

Lemma obj_get_set_eq k x m :
  is_Some (obj_get k m) -> obj_get k (obj_set k x m) = Some x.
Proof.
  induction m as [|[k' y] m IH]; simpl; [by intros [? ?]|].
  destruct (String.eqb k k') eqn:E; simpl; rewrite E; auto.
Qed.

Lemma obj_get_set_ne k k' x m :
  k <> k' -> obj_get k' (obj_set k x m) = obj_get k' m.
Proof.
  intros Hne. induction m as [|[k2 y] m IH]; simpl; [done|].
  destruct (String.eqb k k2) eqn:E; simpl.
  - apply String.eqb_eq in E as <-.
    destruct (String.eqb k' k) eqn:E'; [|done].
    apply String.eqb_eq in E'. congruence.
  - now rewrite IH.
Qed.

Lemma replacePath_lookup p new : forall t t',
  replacePath p new t = Some t' -> lookupPath p t' = Some new.
Proof.
  induction p as [|[i|k] p IH]; intros t t'; cbn [lookupPath replacePath].
  - now intros [= ->].
  - destruct t as [| | | |l| |]; try done.
    destruct (0 <=? i)%Z eqn:Hi; [|done].
    destruct (l !! Z.to_nat i) as [x|] eqn:Hx; [|done].
    destruct (replacePath p new x) as [x'|] eqn:Hr; [|done].
    intros [= <-]. cbn [lookupPath]. rewrite ?Hi.
    rewrite list_lookup_insert_eq by (eapply lookup_lt_Some; eauto).
    eauto.
  - destruct t as [| | | | |m|]; try done.
    destruct (obj_get k m) as [x|] eqn:Hx; [|done].
    destruct (replacePath p new x) as [x'|] eqn:Hr; [|done].
    intros [= <-]. cbn [lookupPath]. rewrite obj_get_set_eq by eauto. eauto.
Qed.

Lemma replacePath_defined p new : forall t,
  is_Some (lookupPath p t) -> is_Some (replacePath p new t).
Proof.
  induction p as [|[i|k] p IH]; intros t; cbn [lookupPath replacePath]; [eauto| |].
  - destruct t as [| | | |l| |]; try (by intros [? ?]).
    destruct (0 <=? i)%Z; [|by intros [? ?]].
    destruct (l !! Z.to_nat i) as [x|]; [|by intros [? ?]].
    intros Hx. destruct (IH _ Hx) as [x' ->]. eauto.
  - destruct t as [| | | | |m|]; try (by intros [? ?]).
    destruct (obj_get k m) as [x|]; [|by intros [? ?]].
    intros Hx. destruct (IH _ Hx) as [x' ->]. eauto.
Qed.

Lemma apart_cons e p q : apart (e :: p) (e :: q) -> apart p q.
Proof.
  intros [H1 H2]. split; intros Hp; [apply H1|apply H2];
    now apply prefix_cons.
Qed.

(** Replacing the slot at [q] leaves the slot at a path apart from [q]
    as it was. *)
Lemma replacePath_apart p : forall q new t t',
  apart p q -> replacePath q new t = Some t' ->
  lookupPath p t' = lookupPath p t.
Proof.
  induction p as [|e p IH]; intros q new t t' Hap.
  - destruct Hap as [Hn _]. destruct Hn. apply prefix_nil.
  - destruct q as [|e' q].
    { destruct Hap as [_ Hn]. destruct Hn. apply prefix_nil. }
    destruct e' as [j|k']; cbn [lookupPath replacePath].
    + destruct t as [| | | |l| |]; try done.
      destruct (0 <=? j)%Z eqn:Hj; [|done].
      destruct (l !! Z.to_nat j) as [x|] eqn:Hx; [|done].
      destruct (replacePath q new x) as [x'|] eqn:Hr; [|done].
      intros [= <-]. destruct e as [i|k]; cbn [lookupPath]; [|done].
      destruct (0 <=? i)%Z eqn:Hi; [|done].
      destruct (decide (i = j)) as [->|Hne].
      * rewrite list_lookup_insert_eq by (eapply lookup_lt_Some; eauto).
        rewrite Hx. eapply IH; [|exact Hr]. eapply apart_cons, Hap.
      * rewrite list_lookup_insert_ne; [done|].
        apply Z.leb_le in Hi, Hj. lia.
    + destruct t as [| | | | |m|]; try done.
      destruct (obj_get k' m) as [x|] eqn:Hx; [|done].
      destruct (replacePath q new x) as [x'|] eqn:Hr; [|done].
      intros [= <-]. destruct e as [i|k]; cbn [lookupPath]; [done|].
      destruct (decide (k = k')) as [->|Hne].
      * rewrite obj_get_set_eq by eauto. rewrite Hx.
        eapply IH; [|exact Hr]. eapply apart_cons, Hap.
      * rewrite obj_get_set_ne by done. done.
Qed.

Lemma parseCallback_Ok sid path t t' :
  parseCallback (sid, path) t = Ok t' ->
  snd (ParseUint sid) = true /\
  replacePath path (TFunc (fst (ParseUint sid))) t = Some t'.
Proof.
  unfold parseCallback. destruct (ParseUint sid) as [id [|]]; [|done].
  simpl. destruct (replacePath path (TFunc id) t); [|done].
  now intros [= ->].
Qed.

Lemma parseCallbacks_keeps p entries : forall t t',
  Forall (fun e => apart p (snd e)) entries ->
  parseCallbacks entries t = Ok t' -> lookupPath p t' = lookupPath p t.
Proof.
  induction entries as [|[sid path] rest IH]; intros t t' Hap; cbn [parseCallbacks].
  - now intros [= ->].
  - destruct (parseCallback (sid, path) t) as [t1|e] eqn:E; [|done].
    apply parseCallback_Ok in E as [_ E]. intros Hr.
    apply Forall_cons in Hap as [Hap1 Hap].
    rewrite (IH _ _ Hap Hr). eapply replacePath_apart; eauto.
Qed.

(** Parsing puts, at the path of every entry, the proxy of its id. *)
Lemma parseCallbacks_proxies entries : forall t t',
  ForallOrdPairs (fun e1 e2 => apart (snd e1) (snd e2)) entries ->
  parseCallbacks entries t = Ok t' ->
  forall sid path, (sid, path) ∈ entries ->
    lookupPath path t' = Some (TFunc (fst (ParseUint sid))).
Proof.
  induction entries as [|[sid0 path0] rest IH]; intros t t' Hap; cbn [parseCallbacks].
  - intros _ sid path Hin. inversion Hin.
  - destruct (parseCallback (sid0, path0) t) as [t1|e] eqn:E; [|done].
    apply parseCallback_Ok in E as [_ E]. intros Hr sid path Hin.
    inversion Hap as [|a l Hhd Htl]; subst.
    apply elem_of_cons in Hin as [[= -> ->]|Hin].
    + rewrite (parseCallbacks_keeps path0 rest t1 t'); [|done|done].
      eapply replacePath_lookup; eauto.
    + eapply IH; eauto.
Qed.

(** Parsing succeeds when every key is a decimal uint64 and every path
    leads to a slot, the paths being apart. *)
Lemma parseCallbacks_defined entries : forall t,
  ForallOrdPairs (fun e1 e2 => apart (snd e1) (snd e2)) entries ->
  Forall (fun e => snd (ParseUint (fst e)) = true /\
                   is_Some (lookupPath (snd e) t)) entries ->
  exists t', parseCallbacks entries t = Ok t'.
Proof.
  induction entries as [|[sid path] rest IH]; intros t Hap Hok; cbn [parseCallbacks].
  - eauto.
  - apply Forall_cons in Hok as [[Hk Hp] Hok]. simpl in Hk, Hp.
    inversion Hap as [|a l Hhd Htl]; subst.
    destruct (replacePath_defined path (TFunc (fst (ParseUint sid))) t Hp)
      as [t1 Ht1].
    assert (E : parseCallback (sid, path) t = Ok t1).
    { unfold parseCallback. destruct (ParseUint sid) as [id ok].
      simpl in *. subst ok. now rewrite Ht1. }
    rewrite E. apply IH; [done|].
    rewrite Forall_forall in Hok, Hhd. apply Forall_forall.
    intros e He. destruct (Hok e He) as [Hke Hpe]. split; [done|].
    erewrite replacePath_apart; [exact Hpe| |exact Ht1].
    destruct (Hhd e He) as [H1 H2]. now split.
Qed.

Lemma apart_entries (entries : list (string * Path)) :
  NoDup (fst <$> entries) ->
  (forall e1 e2, e1 ∈ entries -> e2 ∈ entries -> fst e1 <> fst e2 ->
                 apart (snd e1) (snd e2)) ->
  ForallOrdPairs (fun e1 e2 => apart (snd e1) (snd e2)) entries.
Proof.
  induction entries as [|e rest IH]; intros Hnd Hap; [constructor|].
  rewrite fmap_cons in Hnd. apply NoDup_cons in Hnd as [Hnin Hnd].
  constructor.
  - apply Forall_forall. intros e2 He2. apply Hap.
    + apply elem_of_cons. now left.
    + apply elem_of_cons. now right.
    + intros E. apply Hnin. rewrite E. now apply list_elem_of_fmap_2.
  - apply IH; [done|]. intros e1 e2 H1 H2. apply Hap; apply elem_of_cons; now right.
Qed.

End Positions.

Section RoundTrip.
Context `{Env}.

(** C2: for a Message whose callbacks field is well formed (every key a
    decimal uint64, every path leading to a slot of the arguments, no path
    a prefix of another), ParseCallbacks returns the message with, at the
    path of every entry, the proxy of the entry's numeric ID; and calling
    that proxy with the values V on a client whose connection takes the
    write, V being scrubbed and serialized without failure, writes exactly
    one frame: the serialized Message whose method is that ID, whose
    arguments are V serialized and whose callbacks are those of V. *)
Theorem C2_callback_round_trip (msg : Message float64) :
  (forall sid path, Callbacks msg !! sid = Some path ->
     snd (ParseUint sid) = true /\
     is_Some (lookupPath path (Arguments msg))) ->
  (forall s1 p1 s2 p2,
     Callbacks msg !! s1 = Some p1 -> Callbacks msg !! s2 = Some p2 ->
     s1 <> s2 -> apart p1 p2) ->
  exists msg',
    ParseCallbacks msg = Ok msg' /\ Method msg' = Method msg /\
    forall sid path, Callbacks msg !! sid = Some path ->
      lookupPath path (Arguments msg') = Some (TFunc (fst (ParseUint sid))) /\
      forall c V w raw data cn,
        Scrub (scrubber c) (VSlice V) = Done w ->
        json_Marshal V = Ok raw ->
        json_MarshalMessage
          (mkMessage (MethodUint64 (fst (ParseUint sid))) raw (cbmap w))
        = Ok data ->
        conn c = Some cn -> failure cn = None ->
        exists c',
          Call c (TFunc (fst (ParseUint sid))) V = Some (c', Return None) /\
          (wire <$> conn c') = Some (wire cn ++ [data]).
Proof.
  intros Hok Hap.
  assert (Hpairs : ForallOrdPairs (fun e1 e2 => apart (snd e1) (snd e2))
                                  (map_to_list (Callbacks msg))).
  { apply apart_entries; [apply NoDup_fst_map_to_list|].
    intros [s1 p1] [s2 p2] H1 H2 Hne.
    apply elem_of_map_to_list in H1, H2. eapply Hap; eauto. }
  destruct (parseCallbacks_defined (map_to_list (Callbacks msg))
                                   (Arguments msg) Hpairs) as [args' Hargs].
  { apply Forall_forall. intros [sid path] He.
    apply elem_of_map_to_list in He. now apply Hok. }
  exists (mkMessage (Method msg) args' (Callbacks msg)).
  split; [unfold ParseCallbacks; now rewrite Hargs|]. split; [done|].
  intros sid path Hin. split.
  - simpl. eapply parseCallbacks_proxies; eauto.
    now apply elem_of_map_to_list.
  - intros c V w raw data cn Hs Hm Hmm Hc Hf.
    eexists. unfold Call, sender.
    rewrite (marshalAndSend_sent _ _ _ _ _ _ _ Hs Hm Hmm Hc Hf).
    split; reflexivity.
Qed.

End RoundTrip.

Lemma C2_callback_round_trip_witness :
  let msg : Message Z :=
    mkMessage (MethodString "subscribe")
              (TArr [TObj [("onMessage", TStr "[Function]")]])
              {[ "3" := [PInt 0; PStr "onMessage"] ]} in
  exists msg',
    ParseCallbacks msg = Ok msg' /\
    lookupPath [PInt 0; PStr "onMessage"] (Arguments msg') = Some (TFunc 3) /\
    exists c',
      Call demo_dialled (TFunc 3) [VNum 42] = Some (c', Return None) /\
      (wire <$> conn c')
      = Some [mkMessage (MethodUint64 3) (TArr [TNum 42%Z]) ∅].
Proof.
  intros msg.
  destruct (C2_callback_round_trip (H := demoEnv) msg) as (msg' & Hp & _ & Hall).
  - intros sid path Hin. unfold msg in *. cbn [Callbacks Arguments] in *.
    apply lookup_singleton_Some in Hin as [<- <-].
    split; [reflexivity|]. vm_compute. eauto.
  - intros s1 p1 s2 p2 H1 H2. unfold msg in *. cbn [Callbacks] in *.
    apply lookup_singleton_Some in H1 as [<- <-].
    apply lookup_singleton_Some in H2 as [<- <-]. done.
  - exists msg'. split; [exact Hp|].
    destruct (Hall "3" [PInt 0; PStr "onMessage"]) as [Hl Hcall];
      [apply lookup_singleton_eq|].
    split; [exact Hl|].
    destruct (Hcall demo_dialled [VNum 42] (mkWalk NewScrubber ∅ [])
                    (TArr [TNum 42%Z])
                    (mkMessage (MethodUint64 3) (TArr [TNum 42%Z]) ∅)
                    (mkConn "" None []))
      as (c' & Hc & Hw); try reflexivity.
    exists c'. split; [exact Hc|exact Hw].
Defined.

(** ** The client: receiving *)

Section Dispatch.
Context `{Env}.

Lemma processMessage_dispatch k c data msg0 msg :
  json_Unmarshal data = Ok msg0 -> ParseCallbacks msg0 = Ok msg ->
  snd (processMessage k c data) = snd (dispatch k c msg) /\
  (snd (dispatch k c msg) = None ->
   processMessage k c data = dispatch k c msg).
Proof.
  intros Hu Hp. unfold processMessage. rewrite Hu, Hp.
  destruct (dispatch k c msg) as [[[c1 evs] p] [e|]]; simpl; [|done].
  destruct (onError c1 e) as [[c2 evs'] p']. done.
Qed.

(** C3: processMessage, on a frame that decodes and whose callbacks
    parse, switches on the kind of the method.  A number: the scrubber is
    asked for the callback of that ID; the error is callback-not-found
    exactly when the ID is not registered, and else the callback runs
    with the arguments.  A string: the handler table is asked for the
    name, whatever the string spells; the error is method-not-found
    exactly when the name is absent, and else runMethod runs the handler.
    Any other kind: the malformed-method error. *)
Theorem C3_dispatch_on_method_kind (k : LocalKite) (c : Client)
  (data : frame) (msg0 msg : Message float64) :
  json_Unmarshal data = Ok msg0 -> ParseCallbacks msg0 = Ok msg ->
  let err := snd (processMessage k c data) in
  match Method msg with
  | MethodFloat64 x =>
    let id := Float64ToUint64 x in
    (err = Some (CallbackNotFoundError id (Arguments msg)) <->
     GetCallback (scrubber c) id = None) /\
    (forall cb, GetCallback (scrubber c) id = Some cb ->
       processMessage k c data
       = (c, [RunCallback cb (Arguments msg)], None, None))
  | MethodString name =>
    (err = Some (MethodNotFoundError name (Arguments msg)) <->
     handlers k !! name = None) /\
    (forall handler, handlers k !! name = Some handler ->
       processMessage k c data
       = (runMethod k c name handler (Arguments msg), None))
  | _ => err = Some MethodKindError
  end.
Proof.
  intros Hu Hp err.
  destruct (processMessage_dispatch k c data msg0 msg Hu Hp) as [He Hd].
  unfold err. rewrite He. clear err He. unfold dispatch in *.
  destruct (Method msg) as [name|n|x|]; simpl; try done.
  - destruct (handlers k !! name) as [handler|] eqn:Hh.
    + split; [split; intros E; [|done]|].
      * destruct (runMethod k c name handler (Arguments msg)) as [[c1 evs] p].
        done.
      * intros h [= <-]. rewrite Hd.
        -- now destruct (runMethod k c name handler (Arguments msg))
             as [[c1 evs] p].
        -- now destruct (runMethod k c name handler (Arguments msg))
             as [[c1 evs] p].
    + split; [done|]. intros h Hn. discriminate Hn.
  - destruct (GetCallback (scrubber c) (Float64ToUint64 x)) as [cb|] eqn:Hg.
    + split; [done|]. intros cb' [= <-]. now rewrite Hd.
    + split; [done|]. intros cb Hn. discriminate Hn.
Qed.

End Dispatch.

Section Authentication.
Context `{Env}.

Lemma newRequest_inv c method args c1 evs0 request callback :
  newRequest c method args = Some (c1, evs0, request, callback) ->
  RemoteAddr c1 = RemoteAddr c /\
  Forall (fun ev => forall m cl r, ev <> Handle m cl r) evs0.
Proof.
  unfold newRequest. destruct (One args) as [first|]; [|done].
  destruct (UnmarshalOptions first) as [options|]; [|done].
  destruct (negb (String.eqb (RemoteAddr c) "")
            && negb (firstRequestHandlersNotified c));
    intros [= <- <- <- <-]; split; try done.
  constructor; [done|constructor].
Qed.

Lemma authenticate_inv k c r c2 r2 evs1 kiteErr :
  RemoteAddr c <> "" ->
  authenticate k c r = (c2, r2, evs1, kiteErr) ->
  match kiteErr with
  | Some e =>
    Error_Type e = "authenticationError" /\
    Forall (fun ev => forall m cl r, ev <> Handle m cl r) evs1
  | None =>
    exists a f,
      Request_Authentication r = Some a /\
      Authenticators k !! Auth_Type a = Some f /\
      f r = (r2, None) /\
      evs1 = [Authenticate (Auth_Type a) r] /\
      c2 = set_Kite (mkKite (Kite_Name (Kite c)) (Username r2)) c
  end.
Proof.
  intros Hra. unfold authenticate.
  apply String.eqb_neq in Hra. rewrite Hra.
  destruct (Request_Authentication r) as [a|].
  - destruct (Authenticators k !! Auth_Type a) as [f|] eqn:Hf.
    + destruct (f r) as [r' [e|]] eqn:Hfr; intros [= <- <- <- <-].
      * split; [done|]. constructor; [done|constructor].
      * exists a, f. done.
    + intros [= <- <- <- <-]. split; [done|constructor].
  - intros [= <- <- <- <-]. split; [done|constructor].
Qed.

Lemma runMethod_reply_inv c callback result kiteErr :
  exists c' p,
    runMethod_reply c callback result kiteErr
    = (c', match callback with
           | Some id => [Reply id (mkResponseValue kiteErr result)]
           | None => []
           end, p).
Proof.
  unfold runMethod_reply. destruct callback as [id|]; [|eauto].
  destruct (sender c id _) as [c' [r|p]]; eauto.
Qed.

(** C8: an inbound named-method call (the session has a remote address)
    with authentication not disabled, on arguments that unwrap to call
    options.  When authenticate fails (no credentials, no authenticator
    for the type, or the authenticator refuses) the error is an
    authenticationError, the handler is not called, and the reply, sent
    when a response callback came with the call, carries that error.
    When it succeeds, the authenticator registered for the authentication
    type has run on the request, then the handler is called, and the
    client that the handler sees through the request has as
    Kite.Username the user name that the authenticator put into the
    request, whatever the caller reported. *)
Theorem C8_authenticate_before_handler (k : LocalKite) (c : Client)
  (method : string) (handlerFunc : HandlerFunc) (args : tree float64)
  (c1 : Client) (evs0 : list event) (request : Request)
  (callback : option N) :
  RemoteAddr c <> "" ->
  DisableAuthentication k = false ->
  newRequest c method args = Some (c1, evs0, request, callback) ->
  match authenticate k c1 request with
  | (c2, r2, evs1, Some e) =>
    Error_Type e = "authenticationError" /\
    exists c3 p,
      let evs2 := match callback with
                  | Some id => [Reply id (mkResponseValue (Some e) VNil)]
                  | None => []
                  end in
      runMethod k c method handlerFunc args = (c3, evs0 ++ evs1 ++ evs2, p) /\
      Forall (fun ev => forall m cl r, ev <> Handle m cl r)
             (evs0 ++ evs1 ++ evs2)
  | (c2, r2, evs1, None) =>
    (exists a f,
        Request_Authentication request = Some a /\
        Authenticators k !! Auth_Type a = Some f /\
        f request = (r2, None) /\
        evs1 = [Authenticate (Auth_Type a) request]) /\
    Kite_Username (Kite c2) = Username r2 /\
    exists c3 evs2 p,
      runMethod k c method handlerFunc args
      = (c3, evs0 ++ evs1 ++ [Handle method c2 r2] ++ evs2, p) /\
      Forall (fun ev => forall m cl r, ev <> Handle m cl r) (evs0 ++ evs1)
  end.
Proof.
  intros Hra Hda Hnr.
  destruct (newRequest_inv _ _ _ _ _ _ _ Hnr) as [Hra1 Hevs0].
  rewrite <- Hra1 in Hra.
  unfold runMethod. rewrite Hnr, Hda.
  destruct (authenticate k c1 request) as [[[c2 r2] evs1] [e|]] eqn:Ha;
    pose proof (authenticate_inv _ _ _ _ _ _ _ Hra Ha) as Hinv; simpl in Hinv.
  - destruct Hinv as [He Hevs1]. split; [done|].
    destruct (runMethod_reply_inv c2 callback VNil (Some e)) as (c3 & p & ->).
    exists c3, p. split; [done|].
    apply Forall_app. split; [done|]. apply Forall_app. split; [done|].
    destruct callback; repeat constructor; done.
  - destruct Hinv as (a & f & Hauth & Hf & Hfr & -> & ->).
    split; [eauto 10|]. split; [done|].
    destruct (handlerFunc _ r2) as [result [err|]|r];
      match goal with
      | |- context [runMethod_reply ?c ?cb ?res ?ke] =>
        destruct (runMethod_reply_inv c cb res ke) as (c3 & p & ->)
      end;
      eexists _, _, _; (split; [reflexivity|]);
      (apply Forall_app; split; [done|repeat constructor; done]).
Qed.

End Authentication.

Lemma C3_dispatch_on_method_kind_witness :
  let named : Message Z := mkMessage (MethodString "1") (TArr []) ∅ in
  let numbered : Message Z := mkMessage (MethodUint64 1) (TArr []) ∅ in
  GetCallback (scrubber demo_registered) 1 = Some (UserFunc 5) /\
  snd (processMessage demo_kite demo_registered named)
  = Some (MethodNotFoundError "1" (TArr [])) /\
  processMessage demo_kite demo_registered numbered
  = (demo_registered, [RunCallback (UserFunc 5) (TArr [])], None, None).
Proof.
  intros named numbered. split; [reflexivity|]. split.
  - pose proof (C3_dispatch_on_method_kind (H := demoEnv) demo_kite
                  demo_registered named named named eq_refl eq_refl) as W.
    simpl in W. apply W. reflexivity.
  - pose proof (C3_dispatch_on_method_kind (H := demoEnv) demo_kite
                  demo_registered numbered
                  (mkMessage (MethodFloat64 1%Z) (TArr []) ∅)
                  (mkMessage (MethodFloat64 1%Z) (TArr []) ∅)
                  eq_refl eq_refl) as W.
    simpl in W. apply W. reflexivity.
Defined.

Lemma C8_authenticate_before_handler_witness :
  exists c2 r2 c3 evs2 p,
    Kite_Username (Kite c2) = "alice" /\ Username r2 = "alice" /\
    runMethod (H := demoEnv) demo_kite demo_accepted "echo" demo_echo
              (demo_call "root" "alice")
    = (c3,
       [FirstRequest (mkKite "mallory" "root");
        Authenticate "token"
          (mkRequest "echo" (Some (TArr [TStr "hi"])) ""
                     (Some (mkAuthentication "token" "alice")))]
       ++ [Handle "echo" c2 r2] ++ evs2, p).
Proof.
  assert (W := C8_authenticate_before_handler (H := demoEnv) demo_kite
                 demo_accepted "echo" demo_echo (demo_call "root" "alice")
                 _ _ _ _ ltac:(vm_compute; discriminate) eq_refl eq_refl).
  match type of W with
  | context [authenticate ?k ?c ?r] =>
    destruct (authenticate k c r) as [[[c2 r2] evs1] [e|]] eqn:Ha
  end; vm_compute in Ha; [discriminate Ha|].
  injection Ha as <- <- <-.
  destruct W as (_ & Hu & c3 & evs2 & p & Hrun & _).
  eexists _, _, c3, evs2, p. split; [|split; [|exact Hrun]]; reflexivity.
Defined.

(* ===================================================================== *)
(** * Further properties *)
(* ===================================================================== *)

(** ** The scrubber: what a walk registers *)

Lemma bind_Done o : o >>> Done = o.
Proof. now destruct o. Qed.

Lemma sub1_lt n : (sub1 n < two64)%N.
Proof. unfold sub1. apply N.mod_lt. unfold two64. lia. Qed.

(** The keys of the map and the allocated IDs, at the end of a walk from
    a fresh map. *)
Lemma Scrub_key_invariant (s : Scrubber) (obj : value) :
  let w := final (Scrub s obj) in
  (forall key, is_Some (cbmap w !! key) <->
               exists id, id ∈ allocated w /\ key = FormatUint id) /\
  (forall id, id ∈ allocated w ->
              is_Some (callbacks (scr w) !! id) /\ (id < two64)%N).
Proof.
  pose (P := fun w : walk =>
    (forall key, is_Some (cbmap w !! key) <->
                 exists id, id ∈ allocated w /\ key = FormatUint id) /\
    (forall id, id ∈ allocated w ->
                is_Some (callbacks (scr w) !! id) /\ (id < two64)%N)).
  pose (R := fun w w' : walk => P w -> P w').
  assert (HR : R (mkWalk s ∅ []) (final (Scrub s obj))).
  { apply (collectCallbacks_rel (fun _ => True) R); auto.
    - now intros w.
    - intros a b c Hab Hbc Ha. exact (Hbc (Hab Ha)).
    - intros cb path w _ _ [Hk Hr]. unfold store. split; simpl.
      + intros key. rewrite lookup_insert_is_Some, Hk. split.
        * intros [<-|[_ (id & Hid & ->)]].
          -- eexists. split; [|done]. apply elem_of_app. right.
             now apply list_elem_of_singleton.
          -- exists id. split; [|done]. apply elem_of_app. now left.
        * intros (id & Hid & ->). apply elem_of_app in Hid as [Hid|Hid].
          -- destruct (decide (FormatUint (sub1 (add1 (seq (scr w))))
                               = FormatUint id)); [now left|].
             right. split; [done|]. eauto.
          -- apply list_elem_of_singleton in Hid as ->. now left.
      + intros id Hid. apply elem_of_app in Hid as [Hid|Hid].
        * destruct (Hr id Hid) as [Hs Hlt]. split; [|done].
          rewrite lookup_insert_is_Some.
          destruct (decide (sub1 (add1 (seq (scr w))) = id)); auto.
        * apply list_elem_of_singleton in Hid as ->. split.
          -- rewrite lookup_insert_eq. eauto.
          -- apply sub1_lt. }
  apply HR. split; simpl.
  - intros key. rewrite lookup_empty. split.
    + now intros [? ?].
    + intros (id & Hid & _). inversion Hid.
  - intros id Hid. inversion Hid.
Qed.

(** The keys of the callback-path map that Scrub returns (or leaves
    behind when it panics) are exactly the IDs it allocated, printed in
    decimal; every such ID is registered, and removeCallbacks, which
    parses the key back, finds it: parsing the key succeeds and gives the
    ID. *)
Theorem Scrub_keys_are_allocated_ids (s : Scrubber) (obj : value) :
  let w := final (Scrub s obj) in
  (forall key, is_Some (cbmap w !! key) <->
               exists id, id ∈ allocated w /\ key = FormatUint id) /\
  (forall id, id ∈ allocated w ->
              is_Some (GetCallback (scr w) id) /\
              ParseUint (FormatUint id) = (id, true)) /\
  (forall key, is_Some (cbmap w !! key) ->
               snd (ParseUint key) = true /\
               is_Some (GetCallback (scr w) (fst (ParseUint key)))).
Proof.
  destruct (Scrub_key_invariant s obj) as [Hk Hr]. intros w.
  split; [exact Hk|]. split.
  - intros id Hid. destruct (Hr id Hid) as [Hs Hlt].
    split; [exact Hs|]. now apply ParseUint_FormatUint.
  - intros key Hkey. apply Hk in Hkey as (id & Hid & ->).
    destruct (Hr id Hid) as [Hs Hlt].
    rewrite ParseUint_FormatUint by done. now split.
Qed.

(** collectMethods registers the exported methods whose type is
    func(p *Partial), in the order reflect lists them, each under the path
    of the value followed by the method name with its first letter in
    lower case; the other methods register nothing, and nothing panics. *)
Theorem collectMethods_registers_exported (ms : list Dnode.Method)
  (path : Path)
  (w : walk) :
  collectMethods ms path w
  = Done (foldl (storeMethod path) w (List.filter registrable ms)).
Proof.
  revert w. induction ms as [|m ms IH]; intros w; [done|].
  cbn [collectMethods List.filter]. unfold registrable at 1.
  destruct (String.eqb (MPkgPath m) ""); simpl; [|apply IH].
  unfold registerCallback.
  destruct (path ++ [PStr (lowerFirst (MName m))]) as [|e rest] eqn:E.
  { now destruct path. }
  rewrite <- E. destruct (MType m); simpl; apply IH.
Qed.

(** collectFields walks exactly the exported fields that carry neither a
    dnode:"-" nor a json:"-" tag: the other fields can be left out without
    a change of the outcome. *)
Theorem rangeFields_skips_unwalked
  (rec : value -> Path -> walk -> outcome) (fs : list (StructField value))
  (path : Path) (w : walk) :
  rangeFields rec fs path w = rangeFields rec (List.filter walked fs) path w.
Proof.
  revert w. induction fs as [|f fs IH]; intros w; [done|].
  cbn [rangeFields List.filter].
  destruct (walked f) eqn:Hw.
  - cbn [rangeFields]. destruct (fieldStep rec f path w); simpl; [apply IH|done].
  - assert (E : fieldStep rec f path w = Done w).
    { unfold fieldStep, walked in *.
      destruct (String.eqb (PkgPath f) ""); simpl in *; [|done].
      destruct (String.eqb (TagDnode f) "-"); simpl in *; [done|].
      destruct (String.eqb (TagJson f) "-"); simpl in *; done. }
    rewrite E. simpl. apply IH.
Qed.

(** A walk changes the registry at the IDs it allocates only. *)
Lemma collectCallbacks_registry_outside v path w :
  exists new,
    allocated (final (collectCallbacks v path w)) = allocated w ++ new /\
    forall id, id ∉ new ->
      callbacks (scr (final (collectCallbacks v path w))) !! id
      = callbacks (scr w) !! id.
Proof.
  pose (R := fun w w' : walk =>
    exists new, allocated w' = allocated w ++ new /\
      forall id, id ∉ new -> callbacks (scr w') !! id = callbacks (scr w) !! id).
  apply (collectCallbacks_rel (fun _ => True) R); auto.
  - intros a. exists []. now rewrite app_nil_r.
  - intros a b c (n1 & E1 & H1) (n2 & E2 & H2). exists (n1 ++ n2). split.
    + now rewrite E2, E1, app_assoc.
    + intros id Hid. rewrite not_elem_of_app in Hid. destruct Hid.
      rewrite H2, H1; done.
  - intros cb p a _ _. eexists. split; [reflexivity|].
    intros id Hid. simpl. apply lookup_insert_ne.
    intros E. apply Hid. rewrite E. now apply list_elem_of_singleton.
Qed.

Lemma elem_of_ids_from id a k :
  id ∈ ids_from a k <->
  exists i : nat, (i < k)%nat /\ id = ((a + N.of_nat i) mod two64)%N.
Proof.
  unfold ids_from. rewrite list_elem_of_fmap. split.
  - intros (i & -> & Hi). apply elem_of_seq in Hi. exists i. split; [lia|done].
  - intros (i & Hi & ->). exists i. split; [done|]. apply elem_of_seq. lia.
Qed.

(** The registry after Scrub on a scrubber whose counter has not
    wrapped and does not wrap during the call. *)
Lemma Scrub_allocates_next (s : Scrubber) (obj : value) :
  (seq s < two64)%N ->
  (seq s + N.of_nat (length (allocated (final (Scrub s obj)))) < two64)%N ->
  let w := final (Scrub s obj) in
  allocated w
  = (fun i => (seq s + N.of_nat i)%N) <$> List.seq 0 (length (allocated w)) /\
  seq (scr w) = (seq s + N.of_nat (length (allocated w)))%N /\
  (forall id, id ∉ allocated w -> callbacks (scr w) !! id = callbacks s !! id).
Proof.
  intros Hseq Hlen w.
  destruct (collectCallbacks_allocates obj [] (mkWalk s ∅ []) Hseq)
    as (k & Ek & Sk).
  destruct (collectCallbacks_registry_outside obj [] (mkWalk s ∅ []))
    as (new & En & Hout).
  fold (Scrub s obj) in Ek, Sk, En, Hout. fold w in Ek, Sk, En, Hout, Hlen.
  simpl in Ek, Sk, En, Hout.
  assert (Hk : length (allocated w) = k).
  { rewrite Ek. unfold ids_from. now rewrite length_fmap, length_seq. }
  rewrite Hk in *. subst new.
  split; [|split; [|exact Hout]].
  - rewrite Ek at 1. unfold ids_from. apply list_fmap_ext.
    intros j i Hi. apply lookup_seq in Hi as [-> Hi]. simpl.
    apply N.mod_small. lia.
  - rewrite Sk. apply N.mod_small. lia.
Qed.

(** Scrub on a scrubber whose counter has not wrapped, and does not wrap
    during the call: the callbacks registered before are all still
    registered, under the same IDs; the IDs allocated are the next values
    of the counter; and the registry is again below the counter. *)
Theorem Scrub_keeps_registrations (s : Scrubber) (obj : value) :
  fresh_above s ->
  (seq s + N.of_nat (length (allocated (final (Scrub s obj)))) < two64)%N ->
  let w := final (Scrub s obj) in
  (forall id cb, callbacks s !! id = Some cb ->
                 callbacks (scr w) !! id = Some cb) /\
  allocated w
  = (fun i => (seq s + N.of_nat i)%N) <$> List.seq 0 (length (allocated w)) /\
  seq (scr w) = (seq s + N.of_nat (length (allocated w)))%N /\
  fresh_above (scr w).
Proof.
  intros [Hseq Hkeys] Hlen w.
  destruct (Scrub_allocates_next s obj Hseq Hlen) as (Hal & Hs & Hout).
  fold w in Hal, Hs, Hout, Hlen.
  assert (Hnew : forall id, id ∈ allocated w -> (seq s <= id < seq (scr w))%N).
  { intros id Hid. rewrite Hal in Hid.
    apply list_elem_of_fmap in Hid as (i & -> & Hi).
    apply elem_of_seq in Hi. lia. }
  split; [|split; [exact Hal|split; [exact Hs|]]].
  - intros id cb Hcb. rewrite Hout; [done|]. intros Hin.
    apply Hnew in Hin. assert (id < seq s)%N by (apply Hkeys; eauto). lia.
  - split; [lia|]. intros id Hid.
    destruct (decide (id ∈ allocated w)) as [Hin|Hin].
    + now apply Hnew.
    + rewrite Hout in Hid by done. apply Hkeys in Hid. lia.
Qed.

Lemma Scrub_keeps_registrations_witness :
  let s := mkScrubber {[ 0%N := UserFunc 9 ]} 1 in
  let obj := VSlice [VMap [("a", Callback (UserFunc 1))];
                     Callback (UserFunc 2)] in
  fresh_above s /\
  callbacks (scr (final (Scrub s obj))) !! 0%N = Some (UserFunc 9) /\
  allocated (final (Scrub s obj)) = [1; 2]%N /\
  seq (scr (final (Scrub s obj))) = 3%N.
Proof.
  intros s obj.
  assert (Hf : fresh_above s).
  { split; [reflexivity|]. intros id [cb Hid].
    unfold s in Hid. cbn [callbacks] in Hid.
    apply lookup_singleton_Some in Hid as [<- _]. reflexivity. }
  assert (Hlen : (seq s + N.of_nat (length (allocated (final (Scrub s obj))))
                  < two64)%N) by reflexivity.
  destruct (Scrub_keeps_registrations s obj Hf Hlen) as (Hold & Hal & Hs & _).
  split; [exact Hf|]. split; [apply Hold; reflexivity|].
  split; [exact Hal|exact Hs].
Defined.

(** ** The scrubber: arguments with wrapped callbacks *)













(** ** The client: what a send leaves behind *)

Section SendMore.
Context `{Env}.

Lemma conn_set_scrubber s (c : Client) : conn (set_scrubber s c) = conn c.
Proof. done. Qed.

Lemma removeCallbacks_conn (c : Client) callbacks :
  conn (removeCallbacks c callbacks) = conn c.
Proof. done. Qed.

(** marshalAndSend writes to the connection only when it succeeds, and
    then exactly one frame: the serialized Message with the method, the
    serialized arguments and the map that Scrub returned; the scrubber is
    then the one Scrub left.  When it fails or panics, the frames written
    so far are the same as before. *)
Theorem marshalAndSend_writes_on_success_only (c : Client)
  (method : method_value float64) (args : list value) :
  match marshalAndSend c method args with
  | (c', Return (callbacks, None)) =>
    exists cn w raw data,
      conn c = Some cn /\ failure cn = None /\
      Scrub (scrubber c) (VSlice args) = Done w /\
      json_Marshal args = Ok raw /\
      json_MarshalMessage (mkMessage method raw (cbmap w)) = Ok data /\
      callbacks = cbmap w /\ scrubber c' = scr w /\
      conn c' = Some (mkConn (RemoteAddr_of cn) None (wire cn ++ [data]))
  | (c', _) => conn c' = conn c
  end.
Proof.
  unfold marshalAndSend.
  destruct (Scrub (scrubber c) (VSlice args)) as [w|p w] eqn:Hs; [|done].
  destruct (json_Marshal args) as [raw|e] eqn:Hm; [|done].
  destruct (json_MarshalMessage _) as [data|e] eqn:Hmm; [|done].
  unfold sendData. rewrite conn_set_scrubber.
  destruct (conn c) as [cn|] eqn:Hc; [|done].
  destruct (failure cn) as [e|] eqn:Hf; [done|].
  simpl. exists cn, w, raw, data. done.
Qed.

(** removeCallbacks leaves alone every ID that no key of the map parses
    to. *)
Lemma removeCallbacks_other c (callbacks : gmap string Path) id :
  (forall key, is_Some (callbacks !! key) -> fst (ParseUint key) <> id) ->
  GetCallback (scrubber (removeCallbacks c callbacks)) id
  = GetCallback (scrubber c) id.
Proof.
  intros Hne. unfold removeCallbacks, GetCallback. simpl.
  assert (Hl : forall e, e ∈ map_to_list callbacks ->
                         fst (ParseUint (fst e)) <> id).
  { intros [key p] He. apply elem_of_map_to_list in He. apply Hne. eauto. }
  induction (map_to_list callbacks) as [|e l IH]; [done|].
  simpl. rewrite lookup_delete_ne.
  - apply IH. intros e' He'. apply Hl, elem_of_cons. now right.
  - apply Hl, elem_of_cons. now left.
Qed.

Lemma removeCallbacks_seq c (callbacks : gmap string Path) :
  seq (scrubber (removeCallbacks c callbacks)) = seq (scrubber c).
Proof.
  unfold removeCallbacks. simpl.
  induction (map_to_list callbacks) as [|e l IH]; [done|]. exact IH.
Qed.

(** A send that fails in sendData, on a scrubber whose counter has not
    wrapped and does not wrap: the registry is afterwards exactly what it
    was before the call, while the counter has moved past the IDs of the
    call, so that they are not handed out again. *)
Theorem marshalAndSend_send_failure_restores_registry (c : Client)
  (method : method_value float64) (args : list value) (w : walk)
  (raw : tree float64) (data : frame) (e : string) :
  fresh_above (scrubber c) ->
  Scrub (scrubber c) (VSlice args) = Done w ->
  (seq (scrubber c) + N.of_nat (length (allocated w)) < two64)%N ->
  json_Marshal args = Ok raw ->
  json_MarshalMessage (mkMessage method raw (cbmap w)) = Ok data ->
  snd (sendData (set_scrubber (scr w) c) data) = Some e ->
  let c' := fst (marshalAndSend c method args) in
  callbacks (scrubber c') = callbacks (scrubber c) /\
  seq (scrubber c')
  = (seq (scrubber c) + N.of_nat (length (allocated w)))%N /\
  snd (marshalAndSend c method args) = Return (cbmap w, Some e).
Proof.
  intros Hfresh Hs Hlen Hm Hmm Hd c'. unfold c'.
  rewrite (marshalAndSend_send_error _ _ _ _ _ _ _ Hs Hm Hmm Hd).
  cbn [fst snd]. rewrite removeCallbacks_seq.
  destruct Hfresh as [Hlt Hbelow].
  pose proof (Scrub_allocates_next (scrubber c) (VSlice args) Hlt) as Hnext.
  pose proof (Scrub_key_invariant (scrubber c) (VSlice args)) as [Hkeys Hreg].
  rewrite Hs in Hnext, Hkeys, Hreg. simpl in *.
  destruct (Hnext Hlen) as (Hal & Hseq & Hout).
  split; [|split; [exact Hseq|done]].
  apply map_eq. intros id.
  destruct (decide (id ∈ allocated w)) as [Hin|Hin].
  - destruct (Hreg id Hin) as [_ Hid].
    assert (Hk : is_Some (cbmap w !! FormatUint id)) by (apply Hkeys; eauto).
    pose proof (removeCallbacks_removed (set_scrubber (scr w) c) (cbmap w)
                  (FormatUint id) Hk) as Hr.
    rewrite ParseUint_FormatUint in Hr by done.
    unfold GetCallback in Hr. simpl in Hr. rewrite Hr.
    symmetry. apply eq_None_not_Some. intros Hsome.
    apply Hbelow in Hsome.
    rewrite Hal in Hin. apply list_elem_of_fmap in Hin as (i & -> & _). lia.
  - pose proof (removeCallbacks_other (set_scrubber (scr w) c) (cbmap w) id)
      as Hr.
    unfold GetCallback in Hr. simpl in Hr. rewrite Hr; [now apply Hout|].
    intros key Hk Hp. apply Hkeys in Hk as (id' & Hid' & ->).
    destruct (Hreg id' Hid') as [_ Hid'lt].
    rewrite ParseUint_FormatUint in Hp by done. simpl in Hp. congruence.
Qed.

End SendMore.

Lemma marshalAndSend_send_failure_restores_registry_witness :
  let c := mkClient (mkKite "remote" "") None 4000 None
                    (mkScrubber {[ 0%N := UserFunc 9 ]} 1) false in
  let args := [VMap [("onMessage", Callback (UserFunc 1))]] in
  fresh_above (scrubber c) /\
  callbacks (scrubber (fst (marshalAndSend c (MethodString "subscribe") args)))
  = {[ 0%N := UserFunc 9 ]} /\
  seq (scrubber (fst (marshalAndSend c (MethodString "subscribe") args))) = 2%N.
Proof.
  intros c args.
  assert (Hf : fresh_above (scrubber c)).
  { split; [reflexivity|]. intros id [cb Hid].
    unfold c in Hid. cbn [scrubber callbacks] in Hid.
    apply lookup_singleton_Some in Hid as [<- _]. reflexivity. }
  split; [exact Hf|].
  destruct (marshalAndSend_send_failure_restores_registry (H := demoEnv) c
              (MethodString "subscribe") args
              (final (Scrub (scrubber c) (VSlice args)))
              (TArr [TObj [("onMessage", TStr "[Function]")]])
              (mkMessage (MethodString "subscribe")
                 (TArr [TObj [("onMessage", TStr "[Function]")]])
                 {[ "1" := [PInt 0; PStr "onMessage"] ]})
              "not connected" Hf)
    as (Hreg & Hseq & _); try (vm_compute; reflexivity).
  split; [exact Hreg|exact Hseq].
Defined.

(** ** The client: the wrapped arguments, the channel and the waiter *)

(** Scrubbing the arguments of a call as wrapMethodArgs wraps them: the
    response callback is registered first, under the path
    [0, "responseCallback"]; then the arguments of the user are walked
    under [0, "withArgs"]; the description of the local kite and the
    credentials contribute nothing. *)
Theorem Scrub_wrapMethodArgs `{Env} (k : LocalKite) (c : Client)
  (args : list value) (method : string) (s : Scrubber) :
  Scrub s (VSlice (wrapMethodArgs k c args (makeResponseCallback method)))
  = collectCallbacks (VSlice args) [PInt 0; PStr "withArgs"]
      (store (ResponseFunc method) [PInt 0; PStr "responseCallback"]
             (mkWalk s ∅ [])).
Proof.
  unfold Scrub, wrapMethodArgs, callOptionsOut_value.
  destruct (Client_Authentication c) as [a|];
    cbn -[store]; now destruct (rangeSlice _ _ _ _ _).
Qed.

Section WaiterMore.
Context `{Env}.

Lemma marshalAndSend_tellTimeout (c : Client) method args :
  tellTimeout (fst (marshalAndSend c method args)) = tellTimeout c.
Proof.
  unfold marshalAndSend.
  destruct (Scrub (scrubber c) (VSlice args)) as [w|p w]; [|done].
  destruct (json_Marshal args) as [raw|e]; [|done].
  destruct (json_MarshalMessage _) as [data|e]; [|done].
  unfold sendData. simpl. destruct (conn c) as [cn|]; [|done].
  now destruct (failure cn).
Qed.

(** sendCallbackID on a fresh channel: either no entry of the map has the
    path made of the two strings "0" and "responseCallback", and the
    channel is closed and empty, so that a receive gives [ok == false];
    or the channel stays open and holds exactly one number, the one that
    the key of such an entry parses to. *)
Theorem sendCallbackID_sends_one_or_closes (callbacks : gmap string Path) :
  ((forall key p, callbacks !! key = Some p ->
                  p <> [PStr "0"; PStr "responseCallback"]) /\
   sendCallbackID callbacks make = mkChan [] true /\
   chan_recv (sendCallbackID callbacks make) = Some (None, mkChan [] true)) \/
  (exists key,
      callbacks !! key = Some [PStr "0"; PStr "responseCallback"] /\
      sendCallbackID callbacks make = mkChan [fst (ParseUint key)] false /\
      chan_recv (sendCallbackID callbacks make)
      = Some (Some (fst (ParseUint key)), make)).
Proof.
  unfold sendCallbackID.
  destruct (sendCallbackID_range_spec (map_to_list callbacks) make)
    as [[Hall Hc]|(key & Hin & Hs)].
  - left. rewrite Hc. split; [|done]. intros key p Hp.
    apply elem_of_map_to_list in Hp. rewrite Forall_forall in Hall.
    exact (Hall _ Hp).
  - right. exists key. rewrite Hs. split; [|done].
    now apply elem_of_map_to_list.
Qed.

(** A call that was sent: the waiter waits for the timeout given, or for
    the timeout of the client when 0 was given; and Tell returns the reply
    when the reply comes first, the disconnect error when the connection
    is lost first, and the timeout error when the time is up first. *)
Theorem Tell_returns_what_the_waiter_gets (k : LocalKite) (c : Client)
  (method : string) (timeout : Z) (args : list value) (c1 : Client)
  (cl : call) (t : Z) :
  GoWithTimeout k c method timeout args = (c1, Return cl) ->
  waiter_timeout cl = Some t ->
  t = (if (timeout =? 0)%Z then tellTimeout c else timeout) /\
  responseChan cl = make /\
  (forall resp,
      TellWithTimeout k c method timeout args (DoneChan resp)
      = Some (c1, Return resp)) /\
  TellWithTimeout k c method timeout args DisconnectClosed
  = Some (c1, Return (mkResponse None
            (Some (mkError "disconnect" "Remote kite has disconnected")))) /\
  TellWithTimeout k c method timeout args TimeAfter
  = Some (c1, Return (mkResponse None
            (Some (mkError "timeout" (timeoutText method t))))).
Proof.
  intros Hgo Ht.
  destruct (timeout_removes_nothing _ _ _ _ _ _ _ _ Hgo Ht) as [Hrc _].
  assert (Hshape : t = (if (timeout =? 0)%Z then tellTimeout c else timeout)
                   /\ responseChan cl = make).
  { revert Hgo Ht. unfold GoWithTimeout, sendMethod.
    pose proof (marshalAndSend_tellTimeout c (MethodString method)
      (wrapMethodArgs k c args (makeResponseCallback method))) as Htt.
    destruct (marshalAndSend c (MethodString method) _)
      as [c2 [[callbacks [e|]]|p]]; intros Hgo Ht;
      [injection Hgo as <- <-; done | injection Hgo as <- <- | done].
    simpl in *. injection Ht as <-. now rewrite Htt. }
  destruct Hshape as [-> Hresp]. split; [done|]. split; [done|].
  unfold TellWithTimeout. rewrite Hgo. unfold waiter. rewrite Ht, Hrc, Hresp.
  done.
Qed.

End WaiterMore.

Lemma Tell_returns_what_the_waiter_gets_witness :
  exists c1,
    TellWithTimeout demo_kite demo_dialled "echo" 0 [VStr "hi"]
                    DisconnectClosed
    = Some (c1, Return (mkResponse None
              (Some (mkError "disconnect" "Remote kite has disconnected")))) /\
    TellWithTimeout demo_kite demo_dialled "echo" 0 [VStr "hi"] TimeAfter
    = Some (c1, Return (mkResponse None
              (Some (mkError "timeout"
                             (@timeoutText demoEnv "echo" 4000))))).
Proof.
  destruct (GoWithTimeout demo_kite demo_dialled "echo" 0 [VStr "hi"])
    as [c1 [cl|p]] eqn:Hgo; [|vm_compute in Hgo; discriminate Hgo].
  exists c1.
  assert (Ht : waiter_timeout cl = Some 4000%Z).
  { vm_compute in Hgo. injection Hgo as _ <-. reflexivity. }
  destruct (Tell_returns_what_the_waiter_gets _ _ _ _ _ _ _ _ Hgo Ht)
    as (_ & _ & _ & Hd & Hto).
  split; [exact Hd|exact Hto].
Defined.

(** ** The client: inbound messages *)

Section InboundMore.
Context `{Env}.

(** What marshalAndSend never touches. *)
Lemma marshalAndSend_frame (c : Client) method args :
  Kite (fst (marshalAndSend c method args)) = Kite c /\
  firstRequestHandlersNotified (fst (marshalAndSend c method args))
  = firstRequestHandlersNotified c /\
  RemoteAddr (fst (marshalAndSend c method args)) = RemoteAddr c.
Proof.
  unfold marshalAndSend, RemoteAddr.
  destruct (Scrub (scrubber c) (VSlice args)) as [w|p w]; [|done].
  destruct (json_Marshal args) as [raw|e]; [|done].
  destruct (json_MarshalMessage _) as [data|e]; [|done].
  unfold sendData. rewrite conn_set_scrubber.
  destruct (conn c) as [cn|] eqn:Hc; [destruct (failure cn)|];
    simpl; rewrite ?Hc; done.
Qed.

Lemma runMethod_reply_frame c callback result kiteErr :
  Kite (fst (fst (runMethod_reply c callback result kiteErr))) = Kite c /\
  (callback = None -> runMethod_reply c callback result kiteErr = (c, [], None)).
Proof.
  unfold runMethod_reply. destruct callback as [id|]; [|done].
  unfold sender.
  pose proof (marshalAndSend_frame c (MethodUint64 id)
    [Response_value (mkResponseValue kiteErr result)]) as (Hk & _).
  destruct (marshalAndSend c _ _) as [c' [[cbs err]|p]]; simpl in *; done.
Qed.

(** processMessage with any error but method-not-found (a frame that does
    not decode, callbacks that do not parse, an unknown callback ID, a
    method that is neither a number nor a string): the client is as
    before, nothing ran and nothing was written. *)
Theorem processMessage_error_leaves_client (k : LocalKite) (c : Client)
  (data : frame) (e : perror) :
  snd (processMessage k c data) = Some e ->
  (forall method args, e <> MethodNotFoundError method args) ->
  processMessage k c data = (c, [], None, Some e).
Proof.
  unfold processMessage.
  assert (Hd : forall msg, snd (dispatch k c msg) = Some e ->
                 (forall method args, e <> MethodNotFoundError method args) ->
                 dispatch k c msg = (c, [], None, Some e)).
  { intros msg. unfold dispatch.
    destruct (Method msg) as [name|n|x|]; simpl.
    - destruct (handlers k !! name) as [h|]; simpl.
      + now destruct (runMethod k c name h (Arguments msg)) as [[c1 evs] p].
      + intros [= <-] Hne. now destruct (Hne name (Arguments msg)).
    - now intros [= <-].
    - destruct (GetCallback (scrubber c) (Float64ToUint64 x)); simpl.
      + done.
      + now intros [= <-].
    - now intros [= <-]. }
  destruct (json_Unmarshal data) as [msg0|e0]; simpl.
  - destruct (ParseCallbacks msg0) as [msg|e1]; simpl.
    + specialize (Hd msg).
      destruct (dispatch k c msg) as [[[c1 evs] p] [e'|]]; simpl in *.
      * destruct (onError c1 e') as [[c2 evs'] p'] eqn:Ho. simpl.
        intros [= ->] Hne. specialize (Hd eq_refl Hne).
        injection Hd as -> -> ->.
        destruct e; try (now injection Ho as <- <- <-).
        now destruct (Hne method args).
      * done.
    + intros [= <-] _. done.
  - intros [= <-] _. done.
Qed.

(** The reply to an unknown method.  An inbound call of a method that has
    no handler, whose options decode and carry a response callback: the
    error returned is method-not-found, and one frame is written to the
    caller, the call of that response callback with the methodNotFound
    error and no result; no handler and no authenticator runs. *)
Theorem processMessage_method_not_found_reply (k : LocalKite) (c : Client)
  (data : frame) (msg0 msg : Message float64) (name : string)
  (first : tree float64) (rest : list (tree float64))
  (options : callOptions float64) (id : N) (cn : Conn)
  (raw : tree float64) (reply : frame) :
  json_Unmarshal data = Ok msg0 -> ParseCallbacks msg0 = Ok msg ->
  Method msg = MethodString name -> handlers k !! name = None ->
  Arguments msg = TArr (first :: rest) ->
  UnmarshalOptions first = Some options ->
  opt_ResponseCallback options = Some id ->
  conn c = Some cn -> failure cn = None ->
  let resp :=
    mkResponseValue
      (Some (mkError "methodNotFound" (MethodNotFoundError_Error name)))
      VNil in
  json_Marshal [Response_value resp] = Ok raw ->
  json_MarshalMessage (mkMessage (MethodUint64 id) raw ∅) = Ok reply ->
  processMessage k c data
  = (set_conn (Some (mkConn (RemoteAddr_of cn) None (wire cn ++ [reply]))) c,
     [Reply id resp], None,
     Some (MethodNotFoundError name (TArr (first :: rest)))).
Proof.
  intros Hu Hp Hm Hh Ha Ho Hid Hc Hf resp Hj Hjm.
  unfold processMessage, dispatch. rewrite Hu, Hp, Hm, Hh, Ha.
  cbn [onError]. rewrite Ho, Hid. fold resp.
  assert (Hs : Scrub (scrubber c) (VSlice [Response_value resp])
               = Done (mkWalk (scrubber c) ∅ [])) by reflexivity.
  unfold sender.
  rewrite (marshalAndSend_sent c (MethodUint64 id) _ _ raw reply cn Hs Hj Hjm
                               Hc Hf).
  simpl. now rewrite set_scrubber_same.
Qed.

End InboundMore.

Lemma processMessage_method_not_found_reply_witness :
  let data : Message Z :=
    mkMessage (MethodString "nope") (demo_call "root" "alice") ∅ in
  exists c' reply,
    processMessage demo_kite demo_accepted data
    = (c', [Reply 0 (mkResponseValue
                       (Some (mkError "methodNotFound"
                                      "method not found: nope")) VNil)],
       None, Some (MethodNotFoundError "nope" (demo_call "root" "alice"))) /\
    (wire <$> conn c') = Some [reply] /\
    Method reply = MethodUint64 0.
Proof.
  intros data.
  eexists _, _. split.
  - eapply (processMessage_method_not_found_reply (H := demoEnv) demo_kite
              demo_accepted data data data "nope");
      try reflexivity.
  - split; reflexivity.
Defined.

(** ** The client: requests *)

Section RequestMore.
Context `{Env}.

(** The first-request latch.  newRequest fires the first-request hooks
    and takes over the caller's description of itself only on a session
    with a remote address and only once: after it has returned on such a
    session the latch is set, and every later call neither fires the
    hooks nor touches the client.  A session that this side dialled never
    fires them. *)
Theorem newRequest_notifies_once (c : Client) (method : string)
  (args : tree float64) (c1 : Client) (evs : list event) (r : Request)
  (callback : option N) :
  newRequest c method args = Some (c1, evs, r, callback) ->
  (RemoteAddr c = "" \/ firstRequestHandlersNotified c = true ->
   c1 = c /\ evs = []) /\
  (RemoteAddr c <> "" -> firstRequestHandlersNotified c = false ->
   exists options : callOptions float64,
     evs = [FirstRequest (opt_Kite options)] /\ Kite c1 = opt_Kite options) /\
  (RemoteAddr c <> "" ->
   firstRequestHandlersNotified c1 = true /\
   forall method2 args2 c2 evs2 r2 callback2,
     newRequest c1 method2 args2 = Some (c2, evs2, r2, callback2) ->
     c2 = c1 /\ evs2 = []).
Proof.
  unfold newRequest at 1. destruct (One args) as [first|]; [|done].
  destruct (UnmarshalOptions first) as [options|]; [|done].
  destruct (String.eqb (RemoteAddr c) "") eqn:Hra;
    [apply String.eqb_eq in Hra|apply String.eqb_neq in Hra];
    destruct (firstRequestHandlersNotified c) eqn:Hn; simpl;
    intros [= <- <- <- <-].
  - split; [done|]. split; done.
  - split; [done|]. split; done.
  - split; [done|]. split; [done|]. intros _. split; [done|].
    intros method2 args2 c2 evs2 r2 callback2. unfold newRequest.
    destruct (One args2) as [first2|]; [|done].
    destruct (UnmarshalOptions first2) as [options2|]; [|done].
    rewrite Hn, andb_false_r. now intros [= <- <- <- <-].
  - split; [intros [?|?]; done|]. split; [eauto|]. intros _. split; [done|].
    intros method2 args2 c2 evs2 r2 callback2. unfold newRequest.
    destruct (One args2) as [first2|]; [|done].
    destruct (UnmarshalOptions first2) as [options2|]; [|done].
    simpl. rewrite andb_false_r. now intros [= <- <- <- <-].
Qed.

(** authenticate, when it fails, leaves the client as it was, whether or
    not an authenticator ran; without credentials, and with credentials
    of a type that has no authenticator, no authenticator runs and the
    message says which of the two it is.  On a session that this side
    dialled it passes without looking at the credentials. *)
Theorem authenticate_failure_modes (k : LocalKite) (c : Client) (r : Request) :
  (RemoteAddr c = "" -> authenticate k c r = (c, r, [], None)) /\
  (RemoteAddr c <> "" ->
   (Request_Authentication r = None ->
    authenticate k c r
    = (c, r, [], Some (mkError "authenticationError"
                         "No authentication information is provided"))) /\
   (forall a, Request_Authentication r = Some a ->
              Authenticators k !! Auth_Type a = None ->
    authenticate k c r
    = (c, r, [], Some (mkError "authenticationError"
                         (String.append "Unknown authentication type: "
                                        (Auth_Type a))))) /\
   (forall c2 r2 evs e, authenticate k c r = (c2, r2, evs, Some e) ->
                        c2 = c /\ Error_Type e = "authenticationError")).
Proof.
  unfold authenticate. split.
  - intros Hra. apply String.eqb_eq in Hra. now rewrite Hra.
  - intros Hra. apply String.eqb_neq in Hra. rewrite Hra.
    split; [now intros ->|].
    split.
    { intros a Ha Hn. rewrite Ha. cbn beta iota.
      destruct (Authenticators k !! Auth_Type a) as [f|];
        [discriminate Hn|done]. }
    intros c2 r2 evs e.
    destruct (Request_Authentication r) as [a|]; [|now intros [= <- <- <- <-]].
    destruct (Authenticators k !! Auth_Type a) as [f|];
      [|now intros [= <- <- <- <-]].
    destruct (f r) as [r' [e'|]]; [now intros [= <- <- <- <-]|done].
Qed.

(** The run of a handler and its reply, once the request is built and
    authentication has passed or is disabled.  The handler is called with
    the request, and the reply that goes to the response callback carries
    what the handler gave: its result alone; or its result together with
    the error it returned, converted by recoverError; or, when it
    panicked, no result and the converted panic value.  Without a
    response callback nothing is sent and the connection is untouched. *)
Theorem runMethod_reply_carries_outcome (k : LocalKite) (c : Client)
  (method : string) (handlerFunc : HandlerFunc) (args : tree float64)
  (c1 c2 : Client) (evs0 evs1 : list event) (request r2 : Request)
  (callback : option N) :
  newRequest c method args = Some (c1, evs0, request, callback) ->
  (if DisableAuthentication k then (c1, request, [], None)
   else authenticate k c1 request) = (c2, r2, evs1, None) ->
  let outcome :=
    match handlerFunc c2 r2 with
    | HReturn result None => mkResponseValue None result
    | HReturn result (Some err) => mkResponseValue (Some (recoverError err)) result
    | HPanic r => mkResponseValue (Some (recoverError r)) VNil
    end in
  exists c3 p,
    runMethod k c method handlerFunc args
    = (c3, evs0 ++ evs1 ++ [Handle method c2 r2]
           ++ match callback with
              | Some id => [Reply id outcome]
              | None => []
              end, p) /\
    Kite c3 = Kite c2 /\
    (callback = None -> c3 = c2 /\ p = None).
Proof.
  intros Hnr Hauth outcome. unfold runMethod. rewrite Hnr.
  assert (Hstep :
    (if DisableAuthentication k then (c1, request, [], None)
     else authenticate k c1 request) = (c2, r2, evs1, None)) by exact Hauth.
  clear Hauth. revert Hstep.
  destruct (DisableAuthentication k); intros Hstep;
    [injection Hstep as <- <- <-|rewrite Hstep];
    (destruct (handlerFunc _ _) as [result [err|]|r] eqn:Hh;
     match goal with
     | |- context [runMethod_reply ?c ?cb ?res ?ke] =>
       destruct (runMethod_reply_inv c cb res ke) as (c3 & p & E);
       destruct (runMethod_reply_frame c cb res ke) as [Hk Hnone];
       rewrite E in *
     end;
     exists c3, p; unfold outcome; rewrite ?Hh; simpl in *;
     (split; [done|]); (split; [done|]);
     intros ->; specialize (Hnone eq_refl); now injection Hnone as -> ->).
Qed.

(** An inbound call whose arguments do not decode to call options: no
    handler runs, nothing is written, and no reply goes out, even when the
    caller attached a response callback. *)
Theorem runMethod_drops_undecodable_call (k : LocalKite) (c : Client)
  (method : string) (handlerFunc : HandlerFunc) (args : tree float64) :
  (One args = None \/
   exists first, One args = Some first /\ UnmarshalOptions first = None) ->
  runMethod k c method handlerFunc args = (c, [], None) /\
  forall data msg0 msg,
    json_Unmarshal data = Ok msg0 -> ParseCallbacks msg0 = Ok msg ->
    Method msg = MethodString method -> Arguments msg = args ->
    handlers k !! method = Some handlerFunc ->
    processMessage k c data = (c, [], None, None).
Proof.
  intros Hbad.
  assert (Hnr : newRequest c method args = None).
  { unfold newRequest. destruct Hbad as [->|(first & -> & ->)]; done. }
  assert (Hrun : runMethod k c method handlerFunc args = (c, [], None))
    by (unfold runMethod; now rewrite Hnr).
  split; [exact Hrun|].
  intros data msg0 msg Hu Hp Hm Ha Hh.
  unfold processMessage, dispatch. rewrite Hu, Hp, Hm, Hh, Ha, Hrun. done.
Qed.

End RequestMore.

Lemma authenticate_failure_modes_witness :
  let r := mkRequest "echo" None ""
                     (Some (mkAuthentication "sessionID" "abc")) in
  RemoteAddr demo_accepted <> "" /\
  authenticate (H := demoEnv) demo_kite demo_accepted r
  = (demo_accepted, r, [],
     Some (mkError "authenticationError"
                   "Unknown authentication type: sessionID")).
Proof.
  intros r.
  assert (Hra : RemoteAddr (H := demoEnv) demo_accepted <> "")
    by (vm_compute; discriminate).
  split; [exact Hra|].
  destruct (authenticate_failure_modes (H := demoEnv) demo_kite demo_accepted r)
    as [_ Hin].
  destruct (Hin Hra) as (_ & Hunknown & _).
  apply (Hunknown (mkAuthentication "sessionID" "abc")); reflexivity.
Defined.

Lemma newRequest_notifies_once_witness :
  let c1 := mkClient (mkKite "mallory" "root") None 4000
                     (Some (mkConn "10.0.0.7:5555" None [])) NewScrubber true in
  let r := mkRequest "echo" (Some (TArr [TStr "hi"])) ""
                     (Some (mkAuthentication "token" "alice")) in
  newRequest (H := demoEnv) demo_accepted "echo" (demo_call "root" "alice")
  = Some (c1, [FirstRequest (mkKite "mallory" "root")], r, Some 0%N) /\
  firstRequestHandlersNotified c1 = true /\
  newRequest (H := demoEnv) c1 "echo" (demo_call "eve" "alice")
  = Some (c1, [], r, Some 0%N).
Proof.
  intros c1 r.
  assert (Hnr : newRequest (H := demoEnv) demo_accepted "echo"
                           (demo_call "root" "alice")
                = Some (c1, [FirstRequest (mkKite "mallory" "root")], r,
                        Some 0%N)) by reflexivity.
  destruct (newRequest_notifies_once _ _ _ _ _ _ _ Hnr) as (_ & _ & Hlater).
  destruct Hlater as [Hn Hnext]; [vm_compute; discriminate|].
  split; [exact Hnr|]. split; [exact Hn|].
  destruct (newRequest (H := demoEnv) c1 "echo" (demo_call "eve" "alice"))
    as [[[[c2 evs2] r2] cb2]|] eqn:Hnr2; [|discriminate Hnr2].
  destruct (Hnext _ _ _ _ _ _ Hnr2) as [-> ->].
  vm_compute in Hnr2. injection Hnr2 as <- <-. reflexivity.
Defined.

Lemma runMethod_reply_carries_outcome_witness :
  exists c3 p c2 r2,
    Username r2 = "alice" /\
    runMethod (H := demoEnv) demo_kite demo_accepted "echo" demo_echo
              (demo_call "root" "alice")
    = (c3, [FirstRequest (mkKite "mallory" "root")]
           ++ [Authenticate "token"
                 (mkRequest "echo" (Some (TArr [TStr "hi"])) ""
                            (Some (mkAuthentication "token" "alice")))]
           ++ [Handle "echo" c2 r2]
           ++ [Reply 0 (mkResponseValue None (VStr "alice"))], p).
Proof.
  destruct (newRequest (H := demoEnv) demo_accepted "echo"
                       (demo_call "root" "alice"))
    as [[[[c1 evs0] request] cb]|] eqn:Hnr; [|vm_compute in Hnr; discriminate Hnr].
  destruct (authenticate (H := demoEnv) demo_kite c1 request)
    as [[[c2 r2] evs1] kiteErr] eqn:Ha.
  assert (Hall : evs0 = [FirstRequest (mkKite "mallory" "root")] /\
                 cb = Some 0%N /\ kiteErr = None /\
                 evs1 = [Authenticate "token"
                           (mkRequest "echo" (Some (TArr [TStr "hi"])) ""
                              (Some (mkAuthentication "token" "alice")))] /\
                 Username r2 = "alice" /\
                 demo_echo c2 r2 = HReturn (VStr "alice") None).
  { vm_compute in Hnr. injection Hnr as <- <- <- <-.
    vm_compute in Ha. injection Ha as <- <- <- <-. done. }
  destruct Hall as (-> & -> & -> & -> & Hu & Hh).
  destruct (runMethod_reply_carries_outcome (H := demoEnv) demo_kite
              demo_accepted "echo" demo_echo (demo_call "root" "alice")
              c1 c2 _ _ request r2 (Some 0%N) Hnr Ha) as (c3 & p & Hrun & _).
  rewrite Hh in Hrun. exists c3, p, c2, r2. split; [exact Hu|exact Hrun].
Defined.

Lemma runMethod_drops_undecodable_call_witness :
  runMethod (H := demoEnv) demo_kite demo_accepted "echo" demo_echo
            (TArr [TStr "no options"])
  = (demo_accepted, [], None).
Proof.
  apply (runMethod_drops_undecodable_call (H := demoEnv)).
  right. exists (TStr "no options"). split; reflexivity.
Defined.

Section NotFoundMore.
Context `{Env}.

(** An unknown method whose caller cannot be answered: when the arguments
    are no sequence with a first element, or the first element does not
    decode to call options, or the options carry no response callback,
    processMessage returns method-not-found and does nothing else: the
    client is as before and nothing is written. *)
Theorem processMessage_method_not_found_silent (k : LocalKite) (c : Client)
  (data : frame) (msg0 msg : Message float64) (name : string) :
  json_Unmarshal data = Ok msg0 -> ParseCallbacks msg0 = Ok msg ->
  Method msg = MethodString name -> handlers k !! name = None ->
  match One (Arguments msg) with
  | None => True
  | Some first =>
    match UnmarshalOptions first with
    | None => True
    | Some options => opt_ResponseCallback options = None
    end
  end ->
  processMessage k c data
  = (c, [], None, Some (MethodNotFoundError name (Arguments msg))).
Proof.
  intros Hu Hp Hm Hh Hsilent.
  unfold processMessage, dispatch. rewrite Hu, Hp, Hm, Hh. cbn [onError].
  unfold One in Hsilent.
  destruct (Arguments msg) as [| | | |[|first rest]| |]; try done.
  destruct (UnmarshalOptions first) as [options|]; [|done].
  now rewrite Hsilent.
Qed.

End NotFoundMore.

Lemma processMessage_method_not_found_silent_witness :
  let data : Message Z :=
    mkMessage (MethodString "nope") (TArr [TStr "hi"]) ∅ in
  processMessage demo_kite demo_accepted data
  = (demo_accepted, [], None,
     Some (MethodNotFoundError "nope" (TArr [TStr "hi"]))).
Proof.
  intros data.
  apply (processMessage_method_not_found_silent (H := demoEnv) demo_kite
           demo_accepted data data data "nope"); try reflexivity; exact I.
Defined.

Lemma processMessage_error_leaves_client_witness :
  let data : Message Z := mkMessage (MethodUint64 7) (TArr []) ∅ in
  processMessage demo_kite demo_registered data
  = (demo_registered, [], None,
     Some (CallbackNotFoundError 7 (TArr []))).
Proof.
  intros data.
  apply (processMessage_error_leaves_client (H := demoEnv)); [reflexivity|].
  intros method args. discriminate.
Defined.

(** ** The kite: handlers and authenticators *)

Lemma authenticate_HandleFunc `{Env} (k : LocalKite) method handler c r :
  authenticate (HandleFunc k method handler) c r = authenticate k c r.
Proof. reflexivity. Qed.

Lemma runMethod_HandleFunc `{Env} (k : LocalKite) method handler c m h args :
  runMethod (HandleFunc k method handler) c m h args = runMethod k c m h args.
Proof. reflexivity. Qed.

Section HandlersMore.
Context `{Env}.

(** HandleFunc changes how a call of the method it is given is
    dispatched, and nothing else: after the registration a message that
    names the method runs the handler just registered, whatever was
    registered under the name before, and every other message is
    dispatched as it was before the registration. *)
Theorem HandleFunc_dispatch (k : LocalKite) (c : Client) (method : string)
  (handler : HandlerFunc) (msg : Message float64) :
  (Method msg = MethodString method ->
   dispatch (HandleFunc k method handler) c msg
   = (runMethod k c method handler (Arguments msg), None)) /\
  (Method msg <> MethodString method ->
   dispatch (HandleFunc k method handler) c msg = dispatch k c msg).
Proof.
  split; intros Hm; unfold dispatch.
  - rewrite Hm. cbn [HandleFunc handlers]. rewrite lookup_insert_eq.
    rewrite runMethod_HandleFunc.
    now destruct (runMethod k c method handler (Arguments msg)) as [[c1 evs] p].
  - destruct (Method msg) as [name|id|x|] eqn:Hk; [|reflexivity..].
    cbn [HandleFunc handlers].
    rewrite lookup_insert_ne by congruence.
    destruct (handlers k !! name) as [h|]; [|reflexivity].
    now rewrite runMethod_HandleFunc.
Qed.

End HandlersMore.

Lemma String_prefix_app (a s t : string) :
  String.prefix a s = true -> String.prefix a (String.append s t) = true.
Proof.
  revert s. induction a as [|x a IH]; intros [|y s]; simpl; try done.
  - now destruct t.
  - destruct (Ascii.ascii_dec x y); [apply IH|done].
Qed.

Section AuthenticatorsMore.
Context `{Env}.
Variable jwt_Parse : string -> result Token.
Variable Kite_String : string.

(** AuthenticateFromToken on a request with credentials, as authenticate
    calls it: it does not panic; it accepts exactly when the key parses
    to a valid token whose audience is a string that the string form of
    the local kite starts with and whose subject is a string, and the
    request is then the one given with the subject as user name; and when
    it refuses, the request is as it was. *)
Theorem AuthenticateFromToken_accepts (r : Request) (a : Authentication) :
  Request_Authentication r = Some a ->
  (exists r' err,
      AuthenticateFromToken jwt_Parse Kite_String r = Return (r', err) /\
      (is_Some err -> r' = r)) /\
  (forall r',
      AuthenticateFromToken jwt_Parse Kite_String r = Return (r', None) <->
      exists token aud sub,
        jwt_Parse (Auth_Key a) = Ok token /\ Valid token = true /\
        Claims token !! "aud" = Some (ClaimString aud) /\
        String.prefix aud Kite_String = true /\
        Claims token !! "sub" = Some (ClaimString sub) /\
        r' = set_Username sub r).
Proof.
  intros Ha. unfold AuthenticateFromToken, claim_string. rewrite Ha.
  destruct (jwt_Parse (Auth_Key a)) as [token|e].
  2:{ split; [eauto|]. intros r'. split; [done|].
      now intros (token & aud & sub & Hp & _). }
  destruct (Valid token) eqn:Hv; cbn [negb].
  2:{ split; [eauto|]. intros r'. split; [done|].
      intros (t & aud & sub & Hp & Hv' & _). congruence. }
  destruct (Claims token !! "aud") as [[aud|]|] eqn:Haud;
    cbn [from_option]; unfold id.
  2,3: rewrite bool_decide_eq_false_2 by (now intros [x Hx]); cbn [negb orb];
       (split; [eauto|]); intros r'; (split; [done|]);
       intros (t & aud & sub & Hp & _ & Haud' & _); congruence.
  rewrite bool_decide_eq_true_2 by eauto. cbn [negb orb].
  destruct (String.prefix aud Kite_String) eqn:Hpre; cbn [negb orb].
  2:{ split; [eauto|]. intros r'. split; [done|].
      intros (t & aud' & sub & Hp & _ & Haud' & Hpre' & _).
      injection Hp as <-. congruence. }
  destruct (Claims token !! "sub") as [[sub|]|] eqn:Hsub.
  2,3: (split; [eauto|]); intros r'; (split; [done|]);
       intros (t & aud' & sub & Hp & _ & _ & _ & Hsub' & _);
       injection Hp as <-; congruence.
  split.
  - exists (set_Username sub r), None. split; [done|]. now intros [x Hx].
  - intros r'. split.
    + intros [= <-]. exists token, aud, sub. done.
    + intros (t & aud' & sub' & Hp & _ & _ & _ & Hsub' & ->).
      injection Hp as <-. congruence.
Qed.

(** The audience of a token is checked as a prefix: a request that
    AuthenticateFromToken accepts for a kite is accepted, with the same
    user name, for every kite whose string form extends that of the
    first. *)
Theorem AuthenticateFromToken_longer_kite (r r' : Request) (more : string) :
  AuthenticateFromToken jwt_Parse Kite_String r = Return (r', None) ->
  AuthenticateFromToken jwt_Parse (String.append Kite_String more) r
  = Return (r', None).
Proof.
  unfold AuthenticateFromToken.
  destruct (Request_Authentication r) as [a|]; [|done].
  destruct (jwt_Parse (Auth_Key a)) as [token|e]; [|done].
  destruct (negb (Valid token)); [done|].
  destruct (bool_decide (is_Some (claim_string token "aud"))); [|done].
  cbn [negb orb].
  destruct (String.prefix _ Kite_String) eqn:Hpre; [|done].
  now rewrite (String_prefix_app _ _ more Hpre).
Qed.

(** AuthenticateFromKiteKey on a request with credentials: it does not
    panic; it accepts exactly when the key parses to a valid token whose
    subject is a string, whatever the other claims are, and the request
    is then the one given with the subject as user name; and when it
    refuses, the request is as it was. *)
Theorem AuthenticateFromKiteKey_accepts (r : Request) (a : Authentication) :
  Request_Authentication r = Some a ->
  (exists r' err,
      AuthenticateFromKiteKey jwt_Parse r = Return (r', err) /\
      (is_Some err -> r' = r)) /\
  (forall r',
      AuthenticateFromKiteKey jwt_Parse r = Return (r', None) <->
      exists token sub,
        jwt_Parse (Auth_Key a) = Ok token /\ Valid token = true /\
        Claims token !! "sub" = Some (ClaimString sub) /\
        r' = set_Username sub r).
Proof.
  intros Ha. unfold AuthenticateFromKiteKey, claim_string. rewrite Ha.
  destruct (jwt_Parse (Auth_Key a)) as [token|e].
  2:{ split; [eauto|]. intros r'. split; [done|].
      now intros (token & sub & Hp & _). }
  destruct (Valid token) eqn:Hv; cbn [negb].
  2:{ split; [eauto|]. intros r'. split; [done|].
      intros (t & sub & Hp & Hv' & _). congruence. }
  destruct (Claims token !! "sub") as [[sub|]|] eqn:Hsub.
  2,3: (split; [eauto|]); intros r'; (split; [done|]);
       intros (t & sub & Hp & _ & Hsub' & _);
       injection Hp as <-; congruence.
  split.
  - exists (set_Username sub r), None. split; [done|]. now intros [x Hx].
  - intros r'. split.
    + intros [= <-]. exists token, sub. done.
    + intros (t & sub' & Hp & _ & Hsub' & ->).
      injection Hp as <-. congruence.
Qed.

End AuthenticatorsMore.

Lemma HandleFunc_dispatch_witness :
  let call : Message Z :=
    mkMessage (MethodString "echo") (demo_call "mallory" "alice") ∅ in
  let other : Message Z := mkMessage (MethodUint64 1) (TArr []) ∅ in
  let shout : HandlerFunc :=
    fun (_ : Client) (r : Request) => HReturn (VStr "HI") None in
  dispatch (HandleFunc demo_kite "echo" shout) demo_accepted call
  = (runMethod demo_kite demo_accepted "echo" shout (demo_call "mallory" "alice"),
     None) /\
  dispatch (HandleFunc demo_kite "echo" shout) demo_registered other
  = dispatch demo_kite demo_registered other.
Proof.
  intros call other shout. split.
  - now apply (HandleFunc_dispatch (H := demoEnv) demo_kite demo_accepted
                 "echo" shout call).
  - now apply (HandleFunc_dispatch (H := demoEnv) demo_kite demo_registered
                 "echo" shout other).
Defined.

Lemma AuthenticateFromToken_accepts_witness :
  let r := @mkRequest demoEnv "echo" None ""
             (Some (mkAuthentication "token" "alice:kite")) in
  AuthenticateFromToken demo_parse "kite/local" r
  = Return (set_Username "alice" r, None).
Proof.
  intros r.
  destruct (AuthenticateFromToken_accepts (H := demoEnv) demo_parse
              "kite/local" r (mkAuthentication "token" "alice:kite") eq_refl)
    as [_ Hiff].
  apply Hiff.
  exists (mkToken true {[ "sub" := ClaimString "alice";
                          "aud" := ClaimString "kite" ]}), "kite", "alice".
  repeat split; reflexivity.
Defined.

Lemma AuthenticateFromToken_longer_kite_witness :
  let r := @mkRequest demoEnv "echo" None ""
             (Some (mkAuthentication "token" "alice:")) in
  AuthenticateFromToken demo_parse (String.append "" "kite/local") r
  = Return (set_Username "alice" r, None).
Proof.
  intros r.
  apply (AuthenticateFromToken_longer_kite (H := demoEnv) demo_parse "").
  reflexivity.
Defined.

Lemma AuthenticateFromKiteKey_accepts_witness :
  let r := @mkRequest demoEnv "echo" None ""
             (Some (mkAuthentication "kiteKey" "alice:elsewhere")) in
  AuthenticateFromKiteKey demo_parse r
  = Return (set_Username "alice" r, None).
Proof.
  intros r.
  destruct (AuthenticateFromKiteKey_accepts (H := demoEnv) demo_parse
              r (mkAuthentication "kiteKey" "alice:elsewhere") eq_refl)
    as [_ Hiff].
  apply Hiff.
  exists (mkToken true {[ "sub" := ClaimString "alice";
                          "aud" := ClaimString "elsewhere" ]}), "alice".
  repeat split; reflexivity.
Defined.
